(** * csv-manager: the tabular view engine of the CSV data viewer

    A shallow embedding of
    - [src/client/components/csv/CsvDataViewer.tsx]: the React component
      holding the view state (filter text, sort configuration, column
      order, current page, cell being edited) and its derivations
      [filteredRows], [sortedRows], [paginatedRows], [totalPages] and event
      handlers, and
    - the server operation [updateCsvRow] of the CSV operations module.

    React state is modelled by explicit state passing over the record
    [ViewState]; a [useState] setter is a function on that record.  Field
    maps ([Record<string, string>]) are finite maps from column names to
    strings.  JavaScript numbers used as indices, lengths and page numbers
    are integers ([Z]). *)

From Stdlib Require Import ZArith String Ascii List Bool Lia Permutation Sorted.
From stdpp Require Import base gmap list strings.

Local Open Scope Z_scope.

(** ** JavaScript strings and arrays *)

Module Js.

(** [String.prototype.toLowerCase], on the ASCII letters; every other
    character is kept as it is. *)
Definition lower_ascii (c : ascii) : ascii :=
  let n := nat_of_ascii c in
  if ((65 <=? n)%nat && (n <=? 90)%nat)%bool then ascii_of_nat (n + 32) else c.

Fixpoint toLowerCase (s : string) : string :=
  match s with
  | EmptyString => EmptyString
  | String c s' => String (lower_ascii c) (toLowerCase s')
  end.

(** [s.includes(t)]: [t] occurs in [s] as a contiguous substring. *)
Fixpoint includes (s t : string) : bool :=
  if String.prefix t s then true
  else match s with
       | EmptyString => false
       | String _ s' => includes s' t
       end.

(** The relative-index rule shared by [Array.prototype.slice] and
    [Array.prototype.splice]: a negative index counts from the end, and
    the result is clamped into [0, len]. *)
Definition relativeIndex (len i : Z) : Z :=
  if i <? 0 then Z.max (len + i) 0 else Z.min i len.

(** [l.slice(start, end)] *)
Definition slice {A} (l : list A) (start end_ : Z) : list A :=
  let len := Z.of_nat (length l) in
  let k := relativeIndex len start in
  let final := relativeIndex len end_ in
  take (Z.to_nat (final - k)) (drop (Z.to_nat k) l).

(** [l.splice(start, deleteCount)] with no inserted item: the pair of the
    removed elements (the method's result) and the array left behind. *)
Definition splice_delete {A} (l : list A) (start deleteCount : Z)
  : list A * list A :=
  let len := Z.of_nat (length l) in
  let k := relativeIndex len start in
  let n := Z.min (Z.max deleteCount 0) (len - k) in
  (take (Z.to_nat n) (drop (Z.to_nat k) l),
   take (Z.to_nat k) l ++ drop (Z.to_nat (k + n)) l).

(** [l.splice(start, 0, x)]: the array after [x] is inserted. *)
Definition splice_insert {A} (l : list A) (start : Z) (x : A) : list A :=
  let len := Z.of_nat (length l) in
  let k := relativeIndex len start in
  take (Z.to_nat k) l ++ x :: drop (Z.to_nat k) l.

(** [Math.ceil(n / d)] for integers [n] and [d > 0]. *)
Definition ceil_div (n d : Z) : Z := - ((- n) / d).

(** [l.sort(cmp)].  ECMAScript requires the sort to be stable, and for a
    consistent comparator the stable sorted arrangement of an array is
    unique (see [sort_unique] below); insertion from the right computes
    it.  The sign of [cmp x y] is all that is used. *)
Fixpoint sort_insert {A} (cmp : A -> A -> Z) (x : A) (l : list A) : list A :=
  match l with
  | [] => [x]
  | y :: l' => if cmp x y <=? 0 then x :: l else y :: sort_insert cmp x l'
  end.

Definition sort {A} (cmp : A -> A -> Z) (l : list A) : list A :=
  foldr (sort_insert cmp) [] l.

(** How a call completes: it returns a value or throws. *)
Inductive completion (A : Type) : Type :=
  | Normal (a : A)
  | Throw (message : string).
Arguments Normal {A} a.
Arguments Throw {A} message.

(** How an awaited promise settles. *)
Inductive settled : Type :=
  | Fulfilled
  | Rejected (reason : string).

End Js.

(** ** Data model *)

(** The two entities of the schema.  Row and file identifiers are
    strings, user identifiers are numbers. *)
Module CsvFile.
Record t : Type := mk {
  id : string;
  userId : Z;
  fileName : string;
  originalName : string;
  columnHeaders : list string;
  rowCount : Z
}.
End CsvFile.

Module CsvRow.
Record t : Type := mk {
  id : string;
  csvFileId : string;
  rowIndex : Z;
  rowData : gmap string string
}.
End CsvRow.

Inductive Direction : Type := asc | desc.

Record SortConfig : Type := mkSortConfig {
  key : string;
  direction : Direction
}.

Record EditingCell : Type := mkEditingCell {
  rowId : string;
  column : string
}.

(** The component's [useState] cells.  [columnOrder] is a [string[]] in
    the source; [None] stands for the [undefined] that [splice] can leave
    in it. *)
Record ViewState : Type := mkViewState {
  selectedRows : gset string;
  sortConfig : option SortConfig;
  visibleColumns : list string;
  columnOrder : list (option string);
  filterText : string;
  currentPage : Z;
  editingCell : option EditingCell;
  editValue : string
}.

Definition initialState (columnHeaders : list string) : ViewState :=
  {| selectedRows := ∅;
     sortConfig := None;
     visibleColumns := columnHeaders;
     columnOrder := Some <$> columnHeaders;
     filterText := "";
     currentPage := 1;
     editingCell := None;
     editValue := "" |}.

Definition setSortConfig (f : option SortConfig -> option SortConfig)
  (st : ViewState) : ViewState :=
  {| selectedRows := selectedRows st;
     sortConfig := f (sortConfig st);
     visibleColumns := visibleColumns st;
     columnOrder := columnOrder st;
     filterText := filterText st;
     currentPage := currentPage st;
     editingCell := editingCell st;
     editValue := editValue st |}.

Definition setColumnOrder (o : list (option string)) (st : ViewState)
  : ViewState :=
  {| selectedRows := selectedRows st;
     sortConfig := sortConfig st;
     visibleColumns := visibleColumns st;
     columnOrder := o;
     filterText := filterText st;
     currentPage := currentPage st;
     editingCell := editingCell st;
     editValue := editValue st |}.

Definition setFilterText (s : string) (st : ViewState) : ViewState :=
  {| selectedRows := selectedRows st;
     sortConfig := sortConfig st;
     visibleColumns := visibleColumns st;
     columnOrder := columnOrder st;
     filterText := s;
     currentPage := currentPage st;
     editingCell := editingCell st;
     editValue := editValue st |}.

Definition setCurrentPage (f : Z -> Z) (st : ViewState) : ViewState :=
  {| selectedRows := selectedRows st;
     sortConfig := sortConfig st;
     visibleColumns := visibleColumns st;
     columnOrder := columnOrder st;
     filterText := filterText st;
     currentPage := f (currentPage st);
     editingCell := editingCell st;
     editValue := editValue st |}.

Definition setEditingCell (c : option EditingCell) (st : ViewState)
  : ViewState :=
  {| selectedRows := selectedRows st;
     sortConfig := sortConfig st;
     visibleColumns := visibleColumns st;
     columnOrder := columnOrder st;
     filterText := filterText st;
     currentPage := currentPage st;
     editingCell := c;
     editValue := editValue st |}.

Definition setEditValue (v : string) (st : ViewState) : ViewState :=
  {| selectedRows := selectedRows st;
     sortConfig := sortConfig st;
     visibleColumns := visibleColumns st;
     columnOrder := columnOrder st;
     filterText := filterText st;
     currentPage := currentPage st;
     editingCell := editingCell st;
     editValue := v |}.

(** ** The derivation pipeline: filter, sort, paginate *)

Definition rowsPerPage : Z := 10.

(** [Object.values(rowData)] *)
Definition Object_values (m : gmap string string) : list string :=
  (map_to_list m).*2.

(** The predicate of [rows.filter] in [filteredRows]. *)
Definition rowMatches (filterText : string) (row : CsvRow.t) : bool :=
  existsb
    (fun value => Js.includes (Js.toLowerCase value) (Js.toLowerCase filterText))
    (Object_values (CsvRow.rowData row)).

Definition filteredRows (rows : list CsvRow.t) (filterText : string)
  : list CsvRow.t :=
  List.filter (rowMatches filterText) rows.

(** [rowData[key] || ''] *)
Definition fieldOr (row : CsvRow.t) (k : string) : string :=
  default "" (CsvRow.rowData row !! k).

Section Engine.

(** [String.prototype.localeCompare] depends on the host's locale; it is
    a parameter of the engine. *)
Variable localeCompare : string -> string -> Z.

(** The comparator handed to [sort] in [sortedRows]. *)
Definition rowCompare (cfg : SortConfig) (a b : CsvRow.t) : Z :=
  let aValue := fieldOr a (key cfg) in
  let bValue := fieldOr b (key cfg) in
  match direction cfg with
  | asc => localeCompare aValue bValue
  | desc => localeCompare bValue aValue
  end.

Definition sortedRowsOf (filtered : list CsvRow.t) (cfg : option SortConfig)
  : list CsvRow.t :=
  match cfg with
  | None => filtered
  | Some cfg => Js.sort (rowCompare cfg) filtered
  end.

Definition sortedRows (rows : list CsvRow.t) (st : ViewState) : list CsvRow.t :=
  sortedRowsOf (filteredRows rows (filterText st)) (sortConfig st).

Definition paginatedRowsOf (sorted : list CsvRow.t) (currentPage : Z)
  : list CsvRow.t :=
  let start := (currentPage - 1) * rowsPerPage in
  Js.slice sorted start (start + rowsPerPage).

Definition paginatedRows (rows : list CsvRow.t) (st : ViewState) : list CsvRow.t :=
  paginatedRowsOf (sortedRows rows st) (currentPage st).

Definition totalPagesOf (sorted : list CsvRow.t) : Z :=
  Js.ceil_div (Z.of_nat (length sorted)) rowsPerPage.

Definition totalPages (rows : list CsvRow.t) (st : ViewState) : Z :=
  totalPagesOf (sortedRows rows st).

(** ** Pagination buttons

    A disabled button dispatches no click; an enabled one runs its
    [setCurrentPage] updater. *)

Definition onClickPrevious (st : ViewState) : ViewState :=
  if currentPage st =? 1 then st
  else setCurrentPage (fun p => Z.max 1 (p - 1)) st.

Definition onClickNext (rows : list CsvRow.t) (st : ViewState) : ViewState :=
  if currentPage st =? totalPages rows st then st
  else setCurrentPage (fun p => Z.min (totalPages rows st) (p + 1)) st.

End Engine.

(** The filter input's [onChange]. *)
Definition onChangeFilter (value : string) (st : ViewState) : ViewState :=
  setFilterText value st.

(** ** Sort toggle *)

Definition handleSort (column : string) (st : ViewState) : ViewState :=
  setSortConfig
    (fun current =>
       Some {| key := column;
               direction :=
                 match current with
                 | Some c =>
                     match String.eqb (key c) column, direction c with
                     | true, asc => desc
                     | _, _ => asc
                     end
                 | None => asc
                 end |})
    st.

(** ** Column order *)

(** The body of [handleColumnReorder] on the array: [removed] is the first
    element of what [splice] took out, [undefined] when it took nothing. *)
Definition reorder (columnOrder : list (option string))
  (dragIndex dropIndex : Z) : list (option string) :=
  let '(removedItems, newOrder) := Js.splice_delete columnOrder dragIndex 1 in
  let removed := match removedItems with
                 | [] => None
                 | x :: _ => x
                 end in
  Js.splice_insert newOrder dropIndex removed.

(** The handler has no [throw] and [splice] throws for no index: it always
    completes normally. *)
Definition handleColumnReorder (dragIndex dropIndex : Z) (st : ViewState)
  : Js.completion ViewState :=
  Js.Normal (setColumnOrder (reorder (columnOrder st) dragIndex dropIndex) st).

(** ** Cell editing *)

Definition handleCellEdit (rowId column value : string) (st : ViewState)
  : ViewState :=
  setEditValue value
    (setEditingCell (Some {| rowId := rowId; column := column |}) st).

(** A call of the asynchronous [handleCellSave] either returns at one of
    its two guards, having called nothing and set nothing, or reaches
    [await onRowUpdate(rowId, newData)], having set nothing yet.  What
    follows the [await] runs when the promise settles, on the state of
    that moment: the setter after a fulfilled promise, nothing after a
    rejected one, which rejects the handler's own promise. *)
Inductive SaveRun : Type :=
  | Returned
  | Awaiting (rowId : string) (newData : gmap string string)
      (resume : Js.settled -> ViewState -> ViewState * Js.completion unit).

Definition handleCellSave (rows : list CsvRow.t) (st : ViewState) : SaveRun :=
  match editingCell st with
  | None => Returned
  | Some cell =>
      match List.find (fun r => String.eqb (CsvRow.id r) (rowId cell)) rows with
      | None => Returned
      | Some row =>
          let newData := <[column cell := editValue st]> (CsvRow.rowData row) in
          Awaiting (rowId cell) newData
            (fun outcome st' =>
               match outcome with
               | Js.Fulfilled => (setEditingCell None st', Js.Normal tt)
               | Js.Rejected reason => (st', Js.Throw reason)
               end)
      end
  end.

(** The calls of [onRowUpdate] a run makes. *)
Definition updateCalls (run : SaveRun) : list (string * gmap string string) :=
  match run with
  | Returned => []
  | Awaiting rowId newData _ => [(rowId, newData)]
  end.

(** The view state while the run is suspended at its [await], or after its
    return when it made no call: no setter has run. *)
Definition stateBeforeSettle (run : SaveRun) (st : ViewState) : ViewState := st.

(** The view state once the awaited promise has settled, no other event
    having come in between. *)
Definition stateAfterSettle (run : SaveRun) (outcome : Js.settled)
  (st : ViewState) : ViewState :=
  match run with
  | Returned => st
  | Awaiting _ _ resume => fst (resume outcome st)
  end.

(** ** The server operation [updateCsvRow] *)

Module Server.

Record User : Type := mkUser { id : Z }.

Record Entities : Type := mkEntities {
  CsvFile_table : gmap string CsvFile.t;
  CsvRow_table : gmap string CsvRow.t
}.

(** The queries sent to the database, in order. *)
Inductive Query : Type :=
  | CsvRow_findUnique (rowId : string)
  | CsvRow_update (rowId : string) (rowData : gmap string string).

(** An operation reads and writes the entities and logs its queries; it
    returns or throws. *)
Definition Op (A : Type) : Type :=
  Entities -> Js.completion A * Entities * list Query.

#[export] Instance Op_ret : MRet Op :=
  fun A (a : A) db => (Js.Normal a, db, []).

Definition throw {A} (message : string) : Op A :=
  fun db => (Js.Throw message, db, []).

#[export] Instance Op_bind : MBind Op :=
  fun A B (k : A -> Op B) (m : Op A) db =>
    match m db with
    | (Js.Normal a, db', q) =>
        let '(r, db'', q') := k a db' in (r, db'', q ++ q')
    | (Js.Throw e, db', q) => (Js.Throw e, db', q)
    end.

(** [CsvRow.findUnique({ where: { id }, include: { csvFile: true } })] *)
Definition findUnique_include_csvFile (rowId : string)
  : Op (option (CsvRow.t * option CsvFile.t)) :=
  fun db =>
    (Js.Normal
       (row ← CsvRow_table db !! rowId;
        Some (row, CsvFile_table db !! CsvRow.csvFileId row)),
     db, [CsvRow_findUnique rowId]).

(** [CsvRow.update({ where: { id }, data: { rowData } })] *)
Definition update_rowData (rowId : string) (newData : gmap string string)
  : Op CsvRow.t :=
  fun db =>
    match CsvRow_table db !! rowId with
    | None => (Js.Throw "Record to update not found.", db,
               [CsvRow_update rowId newData])
    | Some row =>
        let row' := {| CsvRow.id := CsvRow.id row;
                       CsvRow.csvFileId := CsvRow.csvFileId row;
                       CsvRow.rowIndex := CsvRow.rowIndex row;
                       CsvRow.rowData := newData |} in
        (Js.Normal row',
         {| CsvFile_table := CsvFile_table db;
            CsvRow_table := <[rowId := row']> (CsvRow_table db) |},
         [CsvRow_update rowId newData])
    end.

Definition updateCsvRow (rowId : string) (newData : gmap string string)
  (user : option User) : Op CsvRow.t :=
  match user with
  | None => throw "Not authorized"
  | Some user =>
      found ← findUnique_include_csvFile rowId;
      match found return Op CsvRow.t with
      | None => throw "Row not found"
      | Some (row, None) =>
          throw "TypeError: Cannot read properties of null (reading 'userId')"
      | Some (row, Some csvFile) =>
          if negb (CsvFile.userId csvFile =? id user)
          then throw "Not authorized to modify this row"
          else update_rowData rowId newData
      end
  end.

(** The error kinds of the interface, by the messages thrown. *)
Definition NotAuthorized {A} (r : Js.completion A) : Prop :=
  r = Js.Throw "Not authorized" \/ r = Js.Throw "Not authorized to modify this row".

Definition NotFound {A} (r : Js.completion A) : Prop :=
  r = Js.Throw "Row not found".

End Server.

(** ** A comparator to run the engine with

    Comparison by character codes, a consistent comparator in the sense of
    ECMAScript's [Array.prototype.sort]. *)

Fixpoint codeCompare (a b : string) : Z :=
  match a, b with
  | EmptyString, EmptyString => 0
  | EmptyString, String _ _ => -1
  | String _ _, EmptyString => 1
  | String c a', String d b' =>
      let x := Z.of_nat (nat_of_ascii c) - Z.of_nat (nat_of_ascii d) in
      if x =? 0 then codeCompare a' b' else x
  end.

(** ECMAScript's consistent comparator: "equal" is an equivalence,
    "less" is transitive and is "greater" read backwards. *)
Class Consistent {A} (cmp : A -> A -> Z) : Prop := {
  cmp_refl : forall a, cmp a a = 0;
  cmp_eq_sym : forall a b, cmp a b = 0 -> cmp b a = 0;
  cmp_eq_trans : forall a b c, cmp a b = 0 -> cmp b c = 0 -> cmp a c = 0;
  cmp_lt_trans : forall a b c, cmp a b < 0 -> cmp b c < 0 -> cmp a c < 0;
  cmp_lt_gt : forall a b, cmp a b < 0 <-> cmp b a > 0
}.

(** [x] is not after [y]. *)
Definition cmp_le {A} (cmp : A -> A -> Z) (x y : A) : Prop := cmp x y <= 0.

(** [y] compares equal to [z]. *)
Definition same_key {A} (cmp : A -> A -> Z) (z y : A) : bool := cmp z y =? 0.

Definition opposite (d : Direction) : Direction :=
  match d with
  | asc => desc
  | desc => asc
  end.

(** ** Sample data *)

Module Sample.

Definition headers : list string := ["name"; "age"].

Definition row (id : string) (rowIndex : Z) (name age : string) : CsvRow.t :=
  CsvRow.mk id "f1" rowIndex (<["name" := name]> (<["age" := age]> ∅)).

(** The two rows of the specification's scenarios. *)
Definition bobAl : list CsvRow.t :=
  [row "r1" 0 "Bob" "30"; row "r2" 1 "Al" "25"].

(** Three rows that are sorted in neither direction. *)
Definition bobAlCy : list CsvRow.t :=
  [row "r1" 0 "Bob" "30"; row "r2" 1 "Al" "25"; row "r3" 2 "Cy" "41"].

(** Eleven rows, two pages; one row is named Zed. *)
Definition eleven : list CsvRow.t :=
  [row "r1" 0 "Ann" "30"; row "r2" 1 "Ben" "31"; row "r3" 2 "Cat" "32";
   row "r4" 3 "Dan" "33"; row "r5" 4 "Eve" "34"; row "r6" 5 "Fay" "35";
   row "r7" 6 "Gus" "36"; row "r8" 7 "Hal" "37"; row "r9" 8 "Ian" "38";
   row "r10" 9 "Jo" "39"; row "r11" 10 "Zed" "40"].

(** A row without any field. *)
Definition blank : CsvRow.t := CsvRow.mk "r0" "f1" 0 ∅.

Definition file : CsvFile.t := CsvFile.mk "f1" 7 "people.csv" "people.csv" headers 2.

Definition entities : Server.Entities :=
  {| Server.CsvFile_table := {[ "f1" := file ]};
     Server.CsvRow_table := list_to_map ((fun r => (CsvRow.id r, r)) <$> bobAl) |}.

End Sample.

(** ** More of the viewer: column visibility, selection, the range line *)

Definition setVisibleColumns (f : list string -> list string) (st : ViewState)
  : ViewState :=
  {| selectedRows := selectedRows st;
     sortConfig := sortConfig st;
     visibleColumns := f (visibleColumns st);
     columnOrder := columnOrder st;
     filterText := filterText st;
     currentPage := currentPage st;
     editingCell := editingCell st;
     editValue := editValue st |}.

Definition setSelectedRows (s : gset string) (st : ViewState) : ViewState :=
  {| selectedRows := s;
     sortConfig := sortConfig st;
     visibleColumns := visibleColumns st;
     columnOrder := columnOrder st;
     filterText := filterText st;
     currentPage := currentPage st;
     editingCell := editingCell st;
     editValue := editValue st |}.

(** [current.includes(column)] on an array of strings. *)
Definition Array_includes (l : list string) (x : string) : bool :=
  bool_decide (x ∈ l).

Definition handleColumnToggle (column : string) (st : ViewState) : ViewState :=
  setVisibleColumns
    (fun current =>
       if Array_includes current column
       then List.filter (fun c => negb (String.eqb c column)) current
       else current ++ [column])
    st.

(** The columns the table renders, header and cells alike:
    [columnOrder.filter(column => visibleColumns.includes(column))].  An
    [undefined] entry is no member of an array of strings. *)
Definition renderedColumns (st : ViewState) : list (option string) :=
  List.filter
    (fun column =>
       match column with
       | Some c => Array_includes (visibleColumns st) c
       | None => false
       end)
    (columnOrder st).

(** What the viewer keeps of its columns for a file with the given
    headers: the visible columns are headers, each listed once, and the
    column order is an arrangement of the headers. *)
Definition columnsInvariant (columnHeaders : list string) (st : ViewState)
  : Prop :=
  NoDup (visibleColumns st)
  /\ (forall c, c ∈ visibleColumns st -> c ∈ columnHeaders)
  /\ columnOrder st ≡ₚ Some <$> columnHeaders.

(** A click on a cell: [handleCellEdit(row.id, column, value)] with the
    value the cell shows, [rowData[column] || '']. *)
Definition onClickCell (row : CsvRow.t) (column : string) (st : ViewState)
  : ViewState :=
  handleCellEdit (CsvRow.id row) column (fieldOr row column) st.

(** The [isEditing] flag of a cell. *)
Definition isEditing (row : CsvRow.t) (col : string) (st : ViewState) : bool :=
  match editingCell st with
  | Some cell => String.eqb (rowId cell) (CsvRow.id row) && String.eqb (column cell) col
  | None => false
  end.

(** The checkbox of a row: its [checked] flag and its [onChange], which
    receives the new state of the box. *)
Definition rowChecked (row : CsvRow.t) (st : ViewState) : bool :=
  bool_decide (CsvRow.id row ∈ selectedRows st).

Definition onChangeRowChecked (row : CsvRow.t) (checked : bool)
  (st : ViewState) : ViewState :=
  let newSelected := selectedRows st in
  setSelectedRows
    (if checked then {[CsvRow.id row]} ∪ newSelected
     else newSelected ∖ {[CsvRow.id row]})
    st.

Section Viewer.

Variable localeCompare : string -> string -> Z.

(** The checkbox of the header row. *)
Definition headerChecked (rows : list CsvRow.t) (st : ViewState) : bool :=
  Z.of_nat (size (selectedRows st))
  =? Z.of_nat (length (paginatedRows localeCompare rows st)).

Definition onChangeHeaderChecked (rows : list CsvRow.t) (checked : bool)
  (st : ViewState) : ViewState :=
  if checked
  then setSelectedRows
         (list_to_set (CsvRow.id <$> paginatedRows localeCompare rows st)) st
  else setSelectedRows ∅ st.

(** The numbers of "Showing [from] to [to] of [total] rows". *)
Definition showingFrom (st : ViewState) : Z :=
  (currentPage st - 1) * rowsPerPage + 1.

Definition showingTo (rows : list CsvRow.t) (st : ViewState) : Z :=
  Z.min (currentPage st * rowsPerPage)
        (Z.of_nat (length (sortedRows localeCompare rows st))).

Definition showingTotal (rows : list CsvRow.t) (st : ViewState) : Z :=
  Z.of_nat (length (sortedRows localeCompare rows st)).

End Viewer.

(** ** The other server operations on stored files *)

Module Operations.

Import Server.

(** What the schema guarantees of the stored entities: a record is stored
    under its own identifier, and the file of every row is stored. *)
Definition wellFormed (db : Entities) : Prop :=
  (forall k file, CsvFile_table db !! k = Some file -> CsvFile.id file = k)
  /\ (forall k row, CsvRow_table db !! k = Some row ->
        CsvRow.id row = k
        /\ is_Some (CsvFile_table db !! CsvRow.csvFileId row)).

(** The rows that [include: { rows: true }] attaches to a file; their
    order is the database's. *)
Definition rowsOfFile (db : Entities) (fileId : string) : list CsvRow.t :=
  List.filter (fun row => String.eqb (CsvRow.csvFileId row) fileId)
    (map_to_list (CsvRow_table db)).*2.

Definition getCsvFile (fileId : string) (user : option User) (db : Entities)
  : Js.completion (CsvFile.t * list CsvRow.t) :=
  match user with
  | None => Js.Throw "Not authorized"
  | Some user =>
      match CsvFile_table db !! fileId with
      | None => Js.Throw "File not found"
      | Some file =>
          if negb (CsvFile.userId file =? id user)
          then Js.Throw "Not authorized to access this file"
          else Js.Normal (file, rowsOfFile db fileId)
      end
  end.

(** [CsvRow.deleteMany({ where: { csvFileId: fileId } })] *)
Definition deleteMany_rows (fileId : string) (db : Entities) : Entities :=
  {| CsvFile_table := CsvFile_table db;
     CsvRow_table :=
       filter (fun kr => CsvRow.csvFileId kr.2 <> fileId) (CsvRow_table db) |}.

(** [CsvFile.delete({ where: { id: fileId } })] *)
Definition delete_file (fileId : string) (db : Entities)
  : Js.completion CsvFile.t * Entities :=
  match CsvFile_table db !! fileId with
  | None => (Js.Throw "Record to delete does not exist.", db)
  | Some file =>
      (Js.Normal file,
       {| CsvFile_table := delete fileId (CsvFile_table db);
          CsvRow_table := CsvRow_table db |})
  end.

Definition deleteCsvFile (fileId : string) (user : option User) (db : Entities)
  : Js.completion CsvFile.t * Entities :=
  match user with
  | None => (Js.Throw "Not authorized", db)
  | Some user =>
      match CsvFile_table db !! fileId with
      | None => (Js.Throw "File not found", db)
      | Some file =>
          if negb (CsvFile.userId file =? id user)
          then (Js.Throw "Not authorized to delete this file", db)
          else delete_file fileId (deleteMany_rows fileId db)
      end
  end.

(** A stored row with its data replaced, as [CsvRow.update] writes it. *)
Definition withData (row : CsvRow.t) (newData : gmap string string) : CsvRow.t :=
  {| CsvRow.id := CsvRow.id row;
     CsvRow.csvFileId := CsvRow.csvFileId row;
     CsvRow.rowIndex := CsvRow.rowIndex row;
     CsvRow.rowData := newData |}.

(** [updateCsvRow] as the client sees it: the entities after the call and
    how the promise of the action settles. *)
Definition callUpdateCsvRow (user : option User) (db : Entities)
  (rowId : string) (newData : gmap string string) : Entities * Js.settled :=
  match updateCsvRow rowId newData user db with
  | (Js.Normal _, db', _) => (db', Js.Fulfilled)
  | (Js.Throw message, db', _) => (db', Js.Rejected message)
  end.

End Operations.

(** ** Toasts, and the components around the viewer *)

Inductive Effect : Type :=
  | toast_success (message : string)
  | toast_error (message : string)
  | console_error (message : string).

(** What a rejected promise carries: an [Error] with its message, or
    something that is no [Error]. *)
Inductive Thrown : Type :=
  | AnError (message : string)
  | NotAnError.

Inductive Outcome : Type :=
  | Resolved
  | RejectedWith (error : Thrown).

(** The server operation [uploadCsvFile].  The CSV parser and the
    identifiers the database assigns are outside the repository: they are
    parameters. *)
Module UploadOperation.

Import Server.

Section UploadCsvFile.

(** [parse(fileContent, { columns: true, skip_empty_lines: true })]: the
    records, one field map per data line, or what the parser throws. *)
Variable parse : string -> list (gmap string string) + Thrown.

(** [Object.keys] of a parsed record, in the record's own key order. *)
Variable Object_keys : gmap string string -> list string.

(** The identifier the database gives the created file, and the one it
    gives the row created at each position. *)
Variable newFileId : string.
Variable newRowId : nat -> string.

(** The rows of [rows: { create: records.map(...) }]. *)
Definition createdRows (records : list (gmap string string)) : list CsvRow.t :=
  imap (fun index record =>
          {| CsvRow.id := newRowId index;
             CsvRow.csvFileId := newFileId;
             CsvRow.rowIndex := Z.of_nat index;
             CsvRow.rowData := record |})
       records.

(** [CsvFile.create({ data: { ..., rows: { create: [...] } } })], taken to
    succeed. *)
Definition create_file (userId : Z) (fileName : string)
  (columnHeaders : list string) (records : list (gmap string string))
  (db : Entities) : CsvFile.t * Entities :=
  let csvFile := {| CsvFile.id := newFileId;
                    CsvFile.userId := userId;
                    CsvFile.fileName := fileName;
                    CsvFile.originalName := fileName;
                    CsvFile.columnHeaders := columnHeaders;
                    CsvFile.rowCount := Z.of_nat (length records) |} in
  (csvFile,
   {| CsvFile_table := <[newFileId := csvFile]> (CsvFile_table db);
      CsvRow_table :=
        foldr (fun row table => <[CsvRow.id row := row]> table)
              (CsvRow_table db) (createdRows records) |}).

(** The [catch] block: an [Error] is thrown on as it is, anything else as
    "Invalid CSV file format". *)
Definition rethrow {A} (error : Thrown) : Js.completion A :=
  match error with
  | AnError message => Js.Throw message
  | NotAnError => Js.Throw "Invalid CSV file format"
  end.

Definition uploadCsvFile (fileName fileContent : string) (user : option User)
  (db : Entities) : Js.completion CsvFile.t * Entities :=
  match user with
  | None => (Js.Throw "Not authorized", db)
  | Some user =>
      match parse fileContent with
      | inr error => (rethrow error, db)
      | inl records =>
          if (length records =? 0)%nat
          then (rethrow (AnError "CSV file is empty"), db)
          else
            let columnHeaders := Object_keys (default ∅ (head records)) in
            if (length columnHeaders =? 0)%nat
            then (rethrow (AnError "CSV file has no columns"), db)
            else
              let '(csvFile, db') :=
                create_file (id user) fileName columnHeaders records db in
              (Js.Normal csvFile, db')
      end
  end.

End UploadCsvFile.

End UploadOperation.

(** A parser, a key order and identifiers to run [uploadCsvFile] with. *)
Module UploadSample.

Definition records : list (gmap string string) :=
  [<["name" := "Cy"]> (<["age" := "41"]> ∅);
   <["name" := "Di"]> (<["age" := "52"]> ∅)].

Definition parse (fileContent : string) : list (gmap string string) + Thrown :=
  if String.eqb fileContent "" then inl [] else inl records.

Definition Object_keys (record : gmap string string) : list string :=
  List.filter (fun k => bool_decide (is_Some (record !! k))) Sample.headers.

Fixpoint newRowId (index : nat) : string :=
  match index with
  | O => "n"
  | S index => String "n" (newRowId index)
  end.

End UploadSample.

(** The upload box, [CsvFileUpload]. *)
Module CsvFileUpload.

(** A browser [File]: its name, its MIME type, and what [file.text()]
    settles to. *)
Record File : Type := mkFile {
  name : string;
  type : string;
  text : string + Thrown
}.

Record State : Type := mkState {
  isDragging : bool;
  uploadError : option string
}.

(** [s.endsWith(suffix)] *)
Fixpoint endsWith (s suffix : string) : bool :=
  if String.eqb s suffix then true
  else match s with
       | EmptyString => false
       | String _ s' => endsWith s' suffix
       end.

(** What a handler leaves behind: the state, the toasts in order, and the
    calls of the upload action with their arguments. *)
Record Run : Type := mkRun {
  state : State;
  effects : list Effect;
  uploads : list (string * string)
}.

Section Handlers.

(** The upload action, by how its promise settles for a file name and a
    file content. *)
Variable uploadCsvFileFn : string -> string -> Outcome.

(** The [catch] block of [handleFile]. *)
Definition handleFile_catch (error : Thrown) (st : State)
  (uploads : list (string * string)) : Run :=
  let notAuthorized := match error with
                       | AnError message => String.eqb message "Not authorized"
                       | NotAnError => false
                       end in
  if notAuthorized
  then {| state := {| isDragging := isDragging st;
                      uploadError := Some "Please log in to upload files" |};
          effects := [toast_error "Please log in to upload files"];
          uploads := uploads |}
  else
    let errorMessage := match error with
                        | AnError message => message
                        | NotAnError => "Failed to upload file"
                        end in
    {| state := {| isDragging := isDragging st;
                   uploadError := Some errorMessage |};
       effects := [toast_error errorMessage];
       uploads := uploads |}.

Definition handleFile (file : File) (st : State) : Run :=
  if negb (Js.includes (type file) "csv") && negb (endsWith (name file) ".csv")
  then {| state := {| isDragging := isDragging st;
                      uploadError := Some "Please upload a CSV file" |};
          effects := [toast_error "Please upload a CSV file"];
          uploads := [] |}
  else
    match text file with
    | inr error => handleFile_catch error st []
    | inl fileContent =>
        match uploadCsvFileFn (name file) fileContent with
        | RejectedWith error =>
            handleFile_catch error st [(name file, fileContent)]
        | Resolved =>
            {| state := {| isDragging := isDragging st; uploadError := None |};
               effects := [toast_success "File uploaded successfully"];
               uploads := [(name file, fileContent)] |}
        end
    end.

(** The predicate of [files.find] in [handleDrop]. *)
Definition droppedCsv (file : File) : bool :=
  String.eqb (type file) "text/csv" || endsWith (name file) ".csv".

Definition handleDrop (files : list File) (st : State) : Run :=
  let st := {| isDragging := false; uploadError := None |} in
  match List.find droppedCsv files with
  | None =>
      {| state := {| isDragging := isDragging st;
                     uploadError := Some "Please upload a CSV file" |};
         effects := [toast_error "Please upload a CSV file"];
         uploads := [] |}
  | Some csvFile => handleFile csvFile st
  end.

(** [files] is [None] for the [null] of an input without a file list. *)
Definition handleFileInput (files : option (list File)) (st : State) : Run :=
  match files with
  | None | Some [] => {| state := st; effects := []; uploads := [] |}
  | Some (file :: _) => handleFile file st
  end.

End Handlers.

End CsvFileUpload.

(** The page [CsvManager] and the list [CsvFileList]. *)
Module CsvManager.

(** [handleDeleteFile]: what it reports, and how its own promise settles,
    given how the delete action settles. *)
Definition handleDeleteFile (deleteCsvFile : string -> Outcome) (fileId : string)
  : list Effect * Outcome :=
  match deleteCsvFile fileId with
  | Resolved => ([toast_success "File deleted successfully"], Resolved)
  | RejectedWith error =>
      ([toast_error "Failed to delete file";
        console_error "Error deleting file:"], Resolved)
  end.

End CsvManager.

Module CsvFileList.

Record State : Type := mkState {
  deleteDialogOpen : bool;
  fileToDelete : option CsvFile.t
}.

Definition handleDeleteClick (file : CsvFile.t) (st : State) : State :=
  {| deleteDialogOpen := true; fileToDelete := Some file |}.

(** The dialog's [onClose]. *)
Definition onClose (st : State) : State :=
  {| deleteDialogOpen := false; fileToDelete := fileToDelete st |}.

(** [handleDeleteConfirm] with the optional [onDelete] prop: the state it
    leaves, its effects in order (those of [onDelete] first), and the
    identifiers [onDelete] was called with. *)
Definition handleDeleteConfirm
  (onDelete : option (string -> list Effect * Outcome)) (st : State)
  : State * list Effect * list string :=
  let closed := {| deleteDialogOpen := false; fileToDelete := None |} in
  match fileToDelete st, onDelete with
  | Some file, Some onDelete =>
      match onDelete (CsvFile.id file) with
      | (effects, Resolved) =>
          (closed, effects ++ [toast_success "File deleted successfully"],
           [CsvFile.id file])
      | (effects, RejectedWith error) =>
          (closed,
           effects ++ [toast_error "Failed to delete file";
                       console_error "Error deleting file:"],
           [CsvFile.id file])
      end
  | _, _ => (closed, [], [])
  end.

End CsvFileList.

(** * Properties *)

(** ** Arrays: [slice] and [Math.ceil] *)

Lemma take_min_length {A} (l : list A) (n : nat) :
  take (n `min` length l) l = take n l.
Proof.
  destruct (Nat.le_gt_cases n (length l)).
  - by rewrite Nat.min_l.
  - rewrite Nat.min_r, !take_ge by lia. done.
Qed.

(** With a start that is not negative, [slice] is "skip [start], keep
    [count]", whatever the length. *)
Lemma slice_nonneg {A} (l : list A) (start count : Z) :
  0 <= start -> 0 <= count ->
  Js.slice l start (start + count)
  = take (Z.to_nat count) (drop (Z.to_nat start) l).
Proof.
  intros Hs Hc. unfold Js.slice, Js.relativeIndex.
  destruct (Z.ltb_spec start 0) as [?|_]; [lia|].
  destruct (Z.ltb_spec (start + count) 0) as [?|_]; [lia|].
  set (len := Z.of_nat (length l)).
  destruct (Z.le_gt_cases start len) as [Hle|Hgt].
  - rewrite (Z.min_l start len) by lia.
    rewrite <- (take_min_length (drop _ l) (Z.to_nat count)).
    f_equal. rewrite length_drop. subst len. lia.
  - rewrite (Z.min_r start len), (Z.min_r (start + count) len) by lia.
    rewrite !drop_ge by (subst len; lia).
    by rewrite !take_nil.
Qed.

(** [ceil_div n d] is the least [q] with [n <= q * d]. *)
Lemma ceil_div_spec (n d : Z) :
  0 < d -> (Js.ceil_div n d - 1) * d < n <= Js.ceil_div n d * d.
Proof.
  intros Hd. unfold Js.ceil_div.
  pose proof (Z.div_mod (- n) d ltac:(lia)).
  pose proof (Z.mod_pos_bound (- n) d Hd). nia.
Qed.

(** ** Pagination *)

Lemma paginatedRowsOf_take_drop (sorted : list CsvRow.t) (p : Z) :
  1 <= p ->
  paginatedRowsOf sorted p = take 10 (drop (Z.to_nat ((p - 1) * 10)) sorted).
Proof.
  intros Hp. unfold paginatedRowsOf, rowsPerPage.
  by rewrite slice_nonneg by lia.
Qed.

(** Page [p >= 1] holds, at offset [i < 10], the element at index
    [(p - 1) * 10 + i] of the sequence, and nothing else. *)
Lemma paginatedRowsOf_lookup (sorted : list CsvRow.t) (p : Z) (i : nat) :
  1 <= p ->
  paginatedRowsOf sorted p !! i
  = if (i <? 10)%nat then sorted !! (Z.to_nat ((p - 1) * 10) + i)%nat
    else None.
Proof.
  intros Hp. rewrite paginatedRowsOf_take_drop by done.
  destruct (Nat.ltb_spec i 10).
  - by rewrite lookup_take_lt, lookup_drop.
  - by rewrite lookup_take_ge.
Qed.

Lemma totalPagesOf_spec (sorted : list CsvRow.t) :
  (totalPagesOf sorted - 1) * rowsPerPage
  < Z.of_nat (length sorted) <= totalPagesOf sorted * rowsPerPage.
Proof. apply ceil_div_spec. done. Qed.

Lemma totalPagesOf_nonneg (sorted : list CsvRow.t) : 0 <= totalPagesOf sorted.
Proof. pose proof (totalPagesOf_spec sorted). unfold rowsPerPage in *. lia. Qed.

Lemma pages_concat (n : nat) : forall (l : list CsvRow.t),
  (length l <= n * 10)%nat ->
  concat ((fun p : nat => paginatedRowsOf l (Z.of_nat p)) <$> seq 1 n) = l.
Proof.
  induction n as [|n IH]; intros l Hl.
  - destruct l; [done | simpl in Hl; lia].
  - rewrite <- cons_seq, fmap_cons, concat_cons, <- seq_shift.
    rewrite <- list_fmap_compose.
    transitivity (take 10 l ++ drop 10 l); [|apply take_drop]. f_equal.
    + rewrite paginatedRowsOf_take_drop by lia. done.
    + rewrite <- (IH (drop 10 l)) by (rewrite length_drop; lia).
      f_equal. apply list_fmap_ext. intros i p Hp. simpl.
      apply lookup_seq in Hp as [-> _].
      rewrite !paginatedRowsOf_take_drop by lia.
      rewrite drop_drop. do 2 f_equal. lia.
Qed.

Section Pagination.

Variable localeCompare : string -> string -> Z.

Lemma sortedRows_setCurrentPage rows f st :
  sortedRows localeCompare rows (setCurrentPage f st)
  = sortedRows localeCompare rows st.
Proof. done. Qed.

Lemma totalPages_setCurrentPage rows f st :
  totalPages localeCompare rows (setCurrentPage f st)
  = totalPages localeCompare rows st.
Proof. done. Qed.

Lemma totalPages_nil (st : ViewState) : totalPages localeCompare [] st = 0.
Proof. destruct st as [? [cfg|] ? ? ? ? ? ?]; reflexivity. Qed.

(** C8: the pages 1 .. totalPages, one after the other, are the whole
    filtered and sorted sequence: no row twice, none left out.  This holds
    for [totalPages] as the code computes it and also when it is read with
    a minimum of 1. *)
Theorem pages_reconstruct (rows : list CsvRow.t) (st : ViewState) :
  let page (p : nat) :=
    paginatedRows localeCompare rows (setCurrentPage (fun _ => Z.of_nat p) st) in
  concat (page <$> seq 1 (Z.to_nat (totalPages localeCompare rows st)))
  = sortedRows localeCompare rows st
  /\ concat (page <$> seq 1 (Z.to_nat (Z.max 1 (totalPages localeCompare rows st))))
     = sortedRows localeCompare rows st.
Proof.
  intros page. subst page.
  unfold paginatedRows, totalPages. cbn [currentPage setCurrentPage].
  set (l := sortedRows localeCompare rows st).
  replace (fun p : nat => paginatedRowsOf
             (sortedRows localeCompare rows (setCurrentPage (fun _ => Z.of_nat p) st))
             (Z.of_nat p))
    with (fun p : nat => paginatedRowsOf l (Z.of_nat p)) by done.
  pose proof (totalPagesOf_spec l). unfold rowsPerPage in *.
  split; apply pages_concat; lia.
Qed.

End Pagination.

(** C3, at an input where the code departs from it: with a filter text
    that matches no row there is nothing to show and [totalPages] is 0,
    not 1.  The Next button is then enabled on page 1, a click moves the
    view to page 0, and page 0 stays empty when the filter is cleared. *)
Theorem totalPages_no_rows :
  let st := onChangeFilter "zzz" (initialState Sample.headers) in
  let st' := onClickNext codeCompare Sample.bobAl st in
  sortedRows codeCompare Sample.bobAl st = []
  /\ totalPages codeCompare Sample.bobAl st = 0
  /\ currentPage st = 1
  /\ currentPage st' = 0
  /\ length (sortedRows codeCompare Sample.bobAl (onChangeFilter "" st')) = 2%nat
  /\ paginatedRows codeCompare Sample.bobAl (onChangeFilter "" st') = [].
Proof. by vm_compute. Qed.

(** ** Page navigation and the filter *)

Section Navigation.

Variable localeCompare : string -> string -> Z.

Lemma sort_insert_length {A} (cmp : A -> A -> Z) (x : A) (l : list A) :
  length (Js.sort_insert cmp x l) = S (length l).
Proof.
  induction l as [|y l IH]; simpl; [done|].
  destruct (cmp x y <=? 0); simpl; by rewrite ?IH.
Qed.

Lemma sort_length {A} (cmp : A -> A -> Z) (l : list A) :
  length (Js.sort cmp l) = length l.
Proof.
  induction l as [|x l IH]; simpl; [done|].
  by rewrite sort_insert_length, IH.
Qed.

Lemma sortedRowsOf_length filtered cfg :
  length (sortedRowsOf localeCompare filtered cfg) = length filtered.
Proof. destruct cfg; simpl; [apply sort_length | done]. Qed.

(** Sorting changes neither the number of pages nor the page shown. *)
Lemma handleSort_pages rows column st :
  totalPages localeCompare rows (handleSort column st)
  = totalPages localeCompare rows st
  /\ currentPage (handleSort column st) = currentPage st.
Proof.
  split; [|done]. unfold totalPages, totalPagesOf, sortedRows.
  by rewrite !sortedRowsOf_length.
Qed.

(** X29: what the handlers do to the page.  From a page within
    [1, totalPages] the two navigation commands stay within it, Previous
    on page 1 and Next on the last page change nothing, and elsewhere
    they move by one page; the filter's [onChange] leaves [currentPage]
    as it was, whatever the new number of pages, and changing the sort
    changes neither the page nor the number of pages. *)
Theorem navigation_in_range (rows : list CsvRow.t) (st : ViewState) :
  1 <= currentPage st <= totalPages localeCompare rows st ->
  (1 <= currentPage (onClickPrevious st)
     <= totalPages localeCompare rows (onClickPrevious st))
  /\ (1 <= currentPage (onClickNext localeCompare rows st)
        <= totalPages localeCompare rows (onClickNext localeCompare rows st))
  /\ (currentPage st = 1 -> onClickPrevious st = st)
  /\ (currentPage st = totalPages localeCompare rows st ->
      onClickNext localeCompare rows st = st)
  /\ (1 < currentPage st ->
      currentPage (onClickPrevious st) = currentPage st - 1)
  /\ (currentPage st < totalPages localeCompare rows st ->
      currentPage (onClickNext localeCompare rows st) = currentPage st + 1)
  /\ (forall value, currentPage (onChangeFilter value st) = currentPage st)
  /\ (forall column,
        totalPages localeCompare rows (handleSort column st)
        = totalPages localeCompare rows st
        /\ currentPage (handleSort column st) = currentPage st).
Proof.
  intros Hrange.
  pose proof (fun column => handleSort_pages rows column st) as Hsort.
  unfold onClickPrevious, onClickNext.
  destruct (Z.eqb_spec (currentPage st) 1) as [H1|H1];
    destruct (Z.eqb_spec (currentPage st) (totalPages localeCompare rows st))
      as [Hn|Hn];
    rewrite ?totalPages_setCurrentPage; simpl;
    (split; [lia|]); (split; [lia|]);
    (split; [try done; lia|]); (split; [try done; lia|]);
    (split; [lia|]); (split; [lia|]); (split; [done|]); exact Hsort.
Qed.

End Navigation.

Lemma navigation_in_range_witness :
  let st := onClickNext codeCompare Sample.eleven (initialState Sample.headers) in
  currentPage st = 2
  /\ totalPages codeCompare Sample.eleven st = 2
  /\ currentPage (onClickPrevious st) = 1
  /\ onClickNext codeCompare Sample.eleven st = st.
Proof.
  intros st.
  assert (Hp : currentPage st = 2) by (by vm_compute).
  assert (Ht : totalPages codeCompare Sample.eleven st = 2) by (by vm_compute).
  assert (Hrange : 1 <= currentPage st <= totalPages codeCompare Sample.eleven st)
    by (rewrite Hp, Ht; lia).
  destruct (navigation_in_range codeCompare Sample.eleven st Hrange)
    as (_ & _ & _ & Hlast & Hprev & _ & _ & _).
  split; [done|]. split; [done|]. split.
  - rewrite Hprev by (rewrite Hp; lia). rewrite Hp. done.
  - apply Hlast. by rewrite Hp, Ht.
Defined.

(** C4, at an input where the code departs from it: on page 2 of two, a
    filter text that keeps one row leaves one page and [currentPage]
    still 2, outside [1, max(1, totalPages)].  The table then shows no
    row although one matches, under the line "Showing 11 to 1 of 1
    rows".  The navigation handlers clamp the page; the filter's
    [onChange] does not. *)
Lemma filter_change_page_out_of_range :
  let st := onClickNext codeCompare Sample.eleven (initialState Sample.headers) in
  let st' := onChangeFilter "zed" st in
  (1 <= currentPage st <= Z.max 1 (totalPages codeCompare Sample.eleven st))
  /\ ~ (1 <= currentPage st'
          <= Z.max 1 (totalPages codeCompare Sample.eleven st'))
  /\ currentPage st' = 2
  /\ totalPages codeCompare Sample.eleven st' = 1
  /\ CsvRow.id <$> sortedRows codeCompare Sample.eleven st' = ["r11"]
  /\ paginatedRows codeCompare Sample.eleven st' = []
  /\ showingFrom st' = 11
  /\ showingTo codeCompare Sample.eleven st' = 1
  /\ showingTotal codeCompare Sample.eleven st' = 1.
Proof.
  intros st st'.
  assert (Hp : currentPage st = 2) by (by vm_compute).
  assert (Ht : totalPages codeCompare Sample.eleven st = 2) by (by vm_compute).
  assert (Hp' : currentPage st' = 2) by (by vm_compute).
  assert (Ht' : totalPages codeCompare Sample.eleven st' = 1) by (by vm_compute).
  split; [rewrite Hp, Ht; lia|]. split; [rewrite Hp', Ht'; lia|].
  split; [exact Hp'|]. split; [exact Ht'|].
  repeat split; by vm_compute.
Qed.

(** ** Sort toggle *)

(** C6: on the column sorted ascending, [handleSort] turns the direction
    to descending; on that column sorted descending, back to ascending;
    on any other column, and with no sort yet, it starts ascending. *)
Theorem handleSort_toggle (column : string) (st : ViewState) :
  (sortConfig st = Some {| key := column; direction := asc |} ->
   sortConfig (handleSort column st)
   = Some {| key := column; direction := desc |})
  /\ (sortConfig st = Some {| key := column; direction := desc |} ->
      sortConfig (handleSort column st)
      = Some {| key := column; direction := asc |})
  /\ (forall other d,
        sortConfig st = Some {| key := other; direction := d |} ->
        other <> column ->
        sortConfig (handleSort column st)
        = Some {| key := column; direction := asc |})
  /\ (sortConfig st = None ->
      sortConfig (handleSort column st)
      = Some {| key := column; direction := asc |}).
Proof.
  unfold handleSort; cbn [sortConfig setSortConfig].
  split; [|split; [|split]].
  - intros ->. cbn. by rewrite String.eqb_refl.
  - intros ->. cbn. by rewrite String.eqb_refl.
  - intros other d -> Hne. cbn.
    by rewrite (proj2 (String.eqb_neq other column) Hne).
  - intros ->. done.
Qed.

Lemma handleSort_toggle_witness :
  let st0 := initialState Sample.headers in
  let st1 := handleSort "name" st0 in
  let st2 := handleSort "name" st1 in
  let st3 := handleSort "name" st2 in
  sortConfig st1 = Some {| key := "name"; direction := asc |}
  /\ sortConfig st2 = Some {| key := "name"; direction := desc |}
  /\ sortConfig st3 = Some {| key := "name"; direction := asc |}
  /\ sortConfig (handleSort "age" st2)
     = Some {| key := "age"; direction := asc |}.
Proof.
  intros st0 st1 st2 st3.
  assert (H1 : sortConfig st1 = Some {| key := "name"; direction := asc |})
    by exact (proj2 (proj2 (proj2 (handleSort_toggle "name" st0))) eq_refl).
  assert (H2 : sortConfig st2 = Some {| key := "name"; direction := desc |})
    by exact (proj1 (handleSort_toggle "name" st1) H1).
  split; [exact H1|]. split; [exact H2|]. split.
  - exact (proj1 (proj2 (handleSort_toggle "name" st2)) H2).
  - apply (proj1 (proj2 (proj2 (handleSort_toggle "age" st2))) "name" desc H2).
    discriminate.
Defined.

(** ** Cell editing *)

Lemma find_none_iff (rows : list CsvRow.t) (rowId : string) :
  List.find (fun r => String.eqb (CsvRow.id r) rowId) rows = None
  <-> forall row, row ∈ rows -> CsvRow.id row <> rowId.
Proof.
  induction rows as [|r rows IH]; simpl.
  - split; [|done]. intros _ row Hin. by apply elem_of_nil in Hin.
  - destruct (String.eqb_spec (CsvRow.id r) rowId) as [Heq|Hne].
    + split; [done|]. intros H. destruct (H r); [left | done].
    + rewrite IH. split.
      * intros H row Hin. apply elem_of_cons in Hin as [->|Hin]; auto.
      * intros H row Hin. apply H. by right.
Qed.

Lemma find_unique (rows : list CsvRow.t) (row : CsvRow.t) :
  NoDup (CsvRow.id <$> rows) -> row ∈ rows ->
  List.find (fun r => String.eqb (CsvRow.id r) (CsvRow.id row)) rows = Some row.
Proof.
  induction rows as [|r rows IH]; intros Hnd Hin.
  - by apply elem_of_nil in Hin.
  - rewrite fmap_cons in Hnd. apply NoDup_cons in Hnd as [Hr Hnd]. simpl.
    destruct (String.eqb_spec (CsvRow.id r) (CsvRow.id row)) as [Heq|Hne].
    + apply elem_of_cons in Hin as [->|Hin]; [done|].
      destruct Hr. rewrite Heq. apply list_elem_of_fmap. eauto.
    + apply elem_of_cons in Hin as [->|Hin]; [done|]. by apply IH.
Qed.

(** C2, as the code has it: committing an edit of a row of the set calls
    the row-update interface once, with the row's identifier and the
    row's field map overlaid with the pending value at the edited column.
    The edit stays active while that call is pending; it ends when the
    call succeeds, and a failed call leaves the whole view state,
    the active edit included, as it was. *)
Theorem handleCellSave_commit
  (rows : list CsvRow.t) (st : ViewState) (cell : EditingCell) (row : CsvRow.t) :
  NoDup (CsvRow.id <$> rows) ->
  row ∈ rows ->
  CsvRow.id row = rowId cell ->
  editingCell st = Some cell ->
  let run := handleCellSave rows st in
  updateCalls run
  = [(rowId cell, <[column cell := editValue st]> (CsvRow.rowData row))]
  /\ editingCell (stateBeforeSettle run st) = Some cell
  /\ stateAfterSettle run Js.Fulfilled st = setEditingCell None st
  /\ editingCell (stateAfterSettle run Js.Fulfilled st) = None
  /\ (forall reason, stateAfterSettle run (Js.Rejected reason) st = st).
Proof.
  intros Hnd Hin Hid Hcell run. subst run. unfold handleCellSave.
  rewrite Hcell, <- Hid, (find_unique rows row Hnd Hin). cbn.
  by rewrite Hid.
Qed.

Lemma handleCellSave_commit_witness :
  let st := setEditValue "26"
              (handleCellEdit "r2" "age" "25" (initialState Sample.headers)) in
  let run := handleCellSave Sample.bobAl st in
  updateCalls run = [("r2", <["name" := "Al"]> (<["age" := "26"]> ∅))]
  /\ editingCell (stateAfterSettle run Js.Fulfilled st) = None.
Proof.
  intros st run.
  assert (Hnd : NoDup (CsvRow.id <$> Sample.bobAl)).
  { cbn. apply NoDup_cons. split; [|apply NoDup_singleton].
    intros Hin. apply list_elem_of_singleton in Hin. discriminate. }
  assert (Hin : Sample.row "r2" 1 "Al" "25" ∈ Sample.bobAl).
  { right. left. }
  destruct (handleCellSave_commit Sample.bobAl st
              {| rowId := "r2"; column := "age" |}
              (Sample.row "r2" 1 "Al" "25") Hnd Hin eq_refl eq_refl)
    as (Hcalls & _ & _ & Hidle & _).
  split; [|exact Hidle].
  etransitivity; [exact Hcalls|]. by vm_compute.
Defined.

(** C2 fails as stated: the edit is still active while the update call is
    pending, and stays active when the call fails. *)
Lemma handleCellSave_failed_update_keeps_edit :
  let st := setEditValue "26"
              (handleCellEdit "r2" "age" "25" (initialState Sample.headers)) in
  let run := handleCellSave Sample.bobAl st in
  length (updateCalls run) = 1%nat
  /\ editingCell (stateBeforeSettle run st) <> None
  /\ editingCell (stateAfterSettle run (Js.Rejected "Row not found") st)
     <> None.
Proof. by vm_compute. Qed.

(** C10: a commit while no edit is active, or while the edited row is not
    in the row set, calls no update and leaves the view state as it is;
    in the second case the edit stays active. *)
Theorem handleCellSave_no_op (rows : list CsvRow.t) (st : ViewState) :
  (editingCell st = None ->
   handleCellSave rows st = Returned
   /\ updateCalls (handleCellSave rows st) = []
   /\ (forall outcome, stateAfterSettle (handleCellSave rows st) outcome st = st))
  /\ (forall cell,
        editingCell st = Some cell ->
        (forall row, row ∈ rows -> CsvRow.id row <> rowId cell) ->
        handleCellSave rows st = Returned
        /\ updateCalls (handleCellSave rows st) = []
        /\ (forall outcome,
              stateAfterSettle (handleCellSave rows st) outcome st = st)
        /\ editingCell (stateBeforeSettle (handleCellSave rows st) st)
           = Some cell).
Proof.
  split.
  - intros Hnone. unfold handleCellSave. by rewrite Hnone.
  - intros cell Hcell Habsent. unfold handleCellSave.
    rewrite Hcell, (proj2 (find_none_iff rows (rowId cell)) Habsent). done.
Qed.

Lemma handleCellSave_no_op_witness :
  let st := handleCellEdit "r9" "age" "25" (initialState Sample.headers) in
  handleCellSave Sample.bobAl (initialState Sample.headers) = Returned
  /\ handleCellSave Sample.bobAl st = Returned
  /\ editingCell (stateBeforeSettle (handleCellSave Sample.bobAl st) st)
     = Some {| rowId := "r9"; column := "age" |}.
Proof.
  intros st. split.
  - apply (handleCellSave_no_op Sample.bobAl (initialState Sample.headers)).
    reflexivity.
  - assert (Habsent : forall row, row ∈ Sample.bobAl -> CsvRow.id row <> "r9").
    { intros row Hin.
      apply elem_of_cons in Hin as [->|Hin]; [discriminate|].
      apply list_elem_of_singleton in Hin as ->. discriminate. }
    destruct (proj2 (handleCellSave_no_op Sample.bobAl st)
                {| rowId := "r9"; column := "age" |} eq_refl Habsent)
      as (Hret & _ & _ & Hcell).
    by split.
Defined.

(** ** Column order *)

(** With both indices in range, [reorder] takes the dragged element out
    and puts it in at the drop index of what is left. *)
Lemma reorder_valid (cols : list (option string)) (dragIndex dropIndex : Z) x :
  0 <= dragIndex -> 0 <= dropIndex < Z.of_nat (length cols) ->
  cols !! Z.to_nat dragIndex = Some x ->
  reorder cols dragIndex dropIndex
  = take (Z.to_nat dropIndex) (delete (Z.to_nat dragIndex) cols)
    ++ x :: drop (Z.to_nat dropIndex) (delete (Z.to_nat dragIndex) cols).
Proof.
  intros Hdrag Hdrop Hx.
  pose proof (lookup_lt_Some _ _ _ Hx) as Hlt.
  unfold reorder, Js.splice_delete, Js.splice_insert, Js.relativeIndex.
  destruct (Z.ltb_spec dragIndex 0) as [?|_]; [lia|].
  destruct (Z.ltb_spec dropIndex 0) as [?|_]; [lia|].
  rewrite (Z.min_l dragIndex) by lia.
  rewrite (Z.min_l (Z.max 1 0)) by lia.
  replace (Z.to_nat (Z.max 1 0)) with 1%nat by lia.
  replace (Z.to_nat (dragIndex + Z.max 1 0)) with (S (Z.to_nat dragIndex)) by lia.
  rewrite <- delete_take_drop.
  rewrite (drop_S _ _ _ Hx). cbn [take].
  rewrite Z.min_l; [done|].
  rewrite length_delete by eauto. lia.
Qed.

Lemma reorder_spec (cols : list (option string)) (dragIndex dropIndex : Z) :
  0 <= dragIndex < Z.of_nat (length cols) ->
  0 <= dropIndex < Z.of_nat (length cols) ->
  reorder cols dragIndex dropIndex ≡ₚ cols
  /\ reorder cols dragIndex dropIndex !! Z.to_nat dropIndex
     = cols !! Z.to_nat dragIndex
  /\ delete (Z.to_nat dropIndex) (reorder cols dragIndex dropIndex)
     = delete (Z.to_nat dragIndex) cols.
Proof.
  intros Hdrag Hdrop.
  destruct (lookup_lt_is_Some_2 cols (Z.to_nat dragIndex)) as [x Hx]; [lia|].
  rewrite (reorder_valid cols dragIndex dropIndex x) by (done || lia).
  set (rest := delete (Z.to_nat dragIndex) cols).
  assert (Hlen : length (take (Z.to_nat dropIndex) rest) = Z.to_nat dropIndex).
  { apply length_take_le. subst rest. rewrite length_delete by eauto. lia. }
  split; [|split].
  - rewrite <- Permutation_middle, take_drop. symmetry.
    by apply delete_Permutation.
  - rewrite Hx. by apply list_lookup_middle.
  - rewrite <- Hlen at 1. rewrite delete_middle. apply take_drop.
Qed.

(** C7, as the code has it: for indices that are positions of
    [columnOrder], the handler moves the element at [dragIndex] to
    [dropIndex]: the new order is a permutation of the old one, has the
    moved element at [dropIndex], and without it is the old order without
    it.  For no pair of indices does the handler throw. *)
Theorem handleColumnReorder_moves (dragIndex dropIndex : Z) (st : ViewState) :
  (exists st', handleColumnReorder dragIndex dropIndex st = Js.Normal st')
  /\ (0 <= dragIndex < Z.of_nat (length (columnOrder st)) ->
      0 <= dropIndex < Z.of_nat (length (columnOrder st)) ->
      exists st',
        handleColumnReorder dragIndex dropIndex st = Js.Normal st'
        /\ columnOrder st' ≡ₚ columnOrder st
        /\ columnOrder st' !! Z.to_nat dropIndex
           = columnOrder st !! Z.to_nat dragIndex
        /\ delete (Z.to_nat dropIndex) (columnOrder st')
           = delete (Z.to_nat dragIndex) (columnOrder st)).
Proof.
  split; [by eexists|].
  intros Hdrag Hdrop. eexists. split; [done|].
  cbn [columnOrder setColumnOrder]. by apply reorder_spec.
Qed.

Lemma handleColumnReorder_moves_witness :
  exists st',
    handleColumnReorder 0 2 (initialState ["a"; "b"; "c"]) = Js.Normal st'
    /\ columnOrder st' ≡ₚ [Some "a"; Some "b"; Some "c"]
    /\ columnOrder st' !! 2%nat = Some (Some "a")
    /\ delete 2%nat (columnOrder st') = [Some "b"; Some "c"].
Proof.
  apply (proj2 (handleColumnReorder_moves 0 2 (initialState ["a"; "b"; "c"])));
    cbn; lia.
Defined.

(** C7 fails as stated: a drag index past the end raises nothing; the
    handler completes and leaves an [undefined] entry in the order. *)
Lemma handleColumnReorder_out_of_range :
  handleColumnReorder 5 0 (initialState Sample.headers)
  = Js.Normal (setColumnOrder [None; Some "name"; Some "age"]
                 (initialState Sample.headers))
  /\ handleColumnReorder (-1) 7 (initialState Sample.headers)
     = Js.Normal (setColumnOrder [Some "name"; Some "age"]
                    (initialState Sample.headers)).
Proof. by vm_compute. Qed.

(** ** The server operation *)

Section UpdateCsvRow.

Import Server.

(** C9: without a caller identity [updateCsvRow] throws "Not authorized"
    having sent no query; for a row that is not stored it throws "Row not
    found"; for a row of a file of another user it throws "Not authorized
    to modify this row"; in both cases the database is as before.  For a
    row of a file of the caller it stores the field map as the row's data
    and returns the row so updated. *)
Theorem updateCsvRow_spec (rowId : string) (newData : gmap string string)
  (db : Entities) :
  (exists r, updateCsvRow rowId newData None db = (r, db, [])
             /\ NotAuthorized r)
  /\ (forall user,
        CsvRow_table db !! rowId = None ->
        exists r,
          updateCsvRow rowId newData (Some user) db
          = (r, db, [CsvRow_findUnique rowId])
          /\ NotFound r)
  /\ (forall user row csvFile,
        CsvRow_table db !! rowId = Some row ->
        CsvFile_table db !! CsvRow.csvFileId row = Some csvFile ->
        CsvFile.userId csvFile <> id user ->
        exists r,
          updateCsvRow rowId newData (Some user) db
          = (r, db, [CsvRow_findUnique rowId])
          /\ NotAuthorized r)
  /\ (forall user row csvFile,
        CsvRow_table db !! rowId = Some row ->
        CsvFile_table db !! CsvRow.csvFileId row = Some csvFile ->
        CsvFile.userId csvFile = id user ->
        let row' := {| CsvRow.id := CsvRow.id row;
                       CsvRow.csvFileId := CsvRow.csvFileId row;
                       CsvRow.rowIndex := CsvRow.rowIndex row;
                       CsvRow.rowData := newData |} in
        updateCsvRow rowId newData (Some user) db
        = (Js.Normal row',
           {| CsvFile_table := CsvFile_table db;
              CsvRow_table := <[rowId := row']> (CsvRow_table db) |},
           [CsvRow_findUnique rowId; CsvRow_update rowId newData])).
Proof.
  split; [|split; [|split]].
  - eexists. split; [done|]. by left.
  - intros user Hrow. eexists.
    unfold updateCsvRow, mbind, Op_bind, findUnique_include_csvFile.
    rewrite Hrow. cbn. split; done.
  - intros user row csvFile Hrow Hfile Howner. eexists.
    unfold updateCsvRow, mbind, Op_bind, findUnique_include_csvFile.
    rewrite Hrow. cbn. rewrite Hfile.
    rewrite (proj2 (Z.eqb_neq _ _) Howner). cbn. split; [done|]. by right.
  - intros user row csvFile Hrow Hfile Howner row'.
    unfold updateCsvRow, mbind, Op_bind, findUnique_include_csvFile.
    rewrite Hrow. cbn. rewrite Hfile.
    rewrite (proj2 (Z.eqb_eq _ _) Howner). cbn.
    unfold update_rowData. by rewrite Hrow.
Qed.

End UpdateCsvRow.

Lemma updateCsvRow_spec_witness :
  let newData : gmap string string := <["name" := "Al"]> (<["age" := "26"]> ∅) in
  Server.NotFound
    (fst (fst (Server.updateCsvRow "r9" newData (Some (Server.mkUser 7))
                 Sample.entities)))
  /\ Server.NotAuthorized
       (fst (fst (Server.updateCsvRow "r2" newData (Some (Server.mkUser 8))
                    Sample.entities)))
  /\ fst (fst (Server.updateCsvRow "r2" newData (Some (Server.mkUser 7))
                 Sample.entities))
     = Js.Normal (CsvRow.mk "r2" "f1" 1 newData).
Proof.
  intros newData.
  destruct (updateCsvRow_spec "r2" newData Sample.entities)
    as (_ & _ & Hother & Hown).
  destruct (updateCsvRow_spec "r9" newData Sample.entities)
    as (_ & Hmissing & _ & _).
  split; [|split].
  - destruct (Hmissing (Server.mkUser 7) eq_refl) as (r & -> & Hr). exact Hr.
  - destruct (Hother (Server.mkUser 8) (Sample.row "r2" 1 "Al" "25") Sample.file
                eq_refl eq_refl ltac:(cbn; lia)) as (r & -> & Hr).
    exact Hr.
  - by rewrite (Hown (Server.mkUser 7) (Sample.row "r2" 1 "Al" "25") Sample.file
                  eq_refl eq_refl eq_refl).
Defined.

(** ** Filtering *)

Lemma append_String (c : ascii) (s t : string) :
  String.append (String c s) t = String c (String.append s t).
Proof. reflexivity. Qed.

Lemma append_empty (t : string) : String.append "" t = t.
Proof. reflexivity. Qed.

Lemma prefix_append (t s : string) :
  String.prefix t s = true <-> exists q, s = String.append t q.
Proof.
  revert s. induction t as [|c t IH]; intros s.
  - split; [by exists s | by destruct s].
  - destruct s as [|d s]; cbn [String.prefix].
    + split; [done | by intros [q Hq]].
    + destruct (Ascii.ascii_dec c d) as [->|Hne].
      * rewrite IH. split; intros [q Hq]; exists q;
          rewrite append_String in *; congruence.
      * split; [done | intros [q Hq]; rewrite append_String in Hq; congruence].
Qed.

Lemma includes_spec (s t : string) :
  Js.includes s t = true
  <-> exists p q, s = String.append p (String.append t q).
Proof.
  induction s as [|c s IH].
  - cbn [Js.includes]. destruct (String.prefix t "") eqn:Hpre.
    + split; [|done]. intros _. apply prefix_append in Hpre as [q Hq].
      by exists ""%string, q.
    + split; [done|]. intros (p & q & Heq).
      destruct p; [|done]. rewrite append_empty in Heq.
      assert (String.prefix t "" = true) by (apply prefix_append; eauto).
      congruence.
  - cbn [Js.includes]. destruct (String.prefix t (String c s)) eqn:Hpre.
    + split; [|done]. intros _. apply prefix_append in Hpre as [q Hq].
      by exists ""%string, q.
    + rewrite IH. split.
      * intros (p & q & ->). by exists (String c p), q.
      * intros (p & q & Heq). destruct p as [|c' p].
        -- rewrite append_empty in Heq.
           assert (String.prefix t (String c s) = true)
             by (apply prefix_append; eauto).
           congruence.
        -- rewrite append_String in Heq. injection Heq as -> ->. eauto.
Qed.

Lemma includes_empty (s : string) : Js.includes s "" = true.
Proof. destruct s; reflexivity. Qed.

Lemma elem_of_Object_values (m : gmap string string) (v : string) :
  v ∈ Object_values m <-> exists k, m !! k = Some v.
Proof.
  unfold Object_values. rewrite list_elem_of_fmap. split.
  - intros ([k v'] & -> & Hin). exists k. by apply elem_of_map_to_list.
  - intros [k Hk]. exists (k, v). split; [done|]. by apply elem_of_map_to_list.
Qed.

Lemma Object_values_nil (m : gmap string string) :
  Object_values m = [] <-> m = ∅.
Proof.
  unfold Object_values. split.
  - intros H. apply fmap_nil_inv in H. by apply map_to_list_empty_iff.
  - intros ->. by rewrite map_to_list_empty.
Qed.

Lemma rowMatches_spec (s : string) (row : CsvRow.t) :
  rowMatches s row = true
  <-> exists k v, CsvRow.rowData row !! k = Some v
        /\ exists p q, Js.toLowerCase v
                       = String.append p (String.append (Js.toLowerCase s) q).
Proof.
  unfold rowMatches. rewrite existsb_exists. split.
  - intros (v & Hin & Hinc). apply list_elem_of_In, elem_of_Object_values in Hin as [k Hk].
    exists k, v. split; [done|]. by apply includes_spec.
  - intros (k & v & Hk & Hsub). exists v. split.
    + apply list_elem_of_In, elem_of_Object_values. eauto.
    + by apply includes_spec.
Qed.

Lemma rowMatches_empty (row : CsvRow.t) :
  rowMatches "" row = negb (bool_decide (CsvRow.rowData row = ∅)).
Proof.
  unfold rowMatches. cbn [Js.toLowerCase].
  destruct (Object_values (CsvRow.rowData row)) as [|v vs] eqn:Hv.
  - apply Object_values_nil in Hv. by rewrite bool_decide_eq_true_2.
  - cbn [existsb]. rewrite includes_empty. cbn.
    rewrite bool_decide_eq_false_2; [done|].
    intros Hempty. apply Object_values_nil in Hempty. congruence.
Qed.

Lemma filteredRows_sublist (rows : list CsvRow.t) (s : string) :
  filteredRows rows s `sublist_of` rows.
Proof.
  unfold filteredRows. induction rows as [|r rows IH]; simpl; [done|].
  destruct (rowMatches s r); by constructor.
Qed.

(** C1, as the code has it: the rows returned are the rows of the
    dataset, in order, that have a value whose lowercase form contains the
    lowercase filter text.  With the empty filter text these are the rows
    with at least one field: all rows, unchanged in order, when no row's
    field map is empty. *)
Theorem filteredRows_spec (rows : list CsvRow.t) (s : string) :
  (forall row,
     row ∈ filteredRows rows s
     <-> row ∈ rows
         /\ exists k v,
              CsvRow.rowData row !! k = Some v
              /\ exists p q,
                   Js.toLowerCase v
                   = String.append p (String.append (Js.toLowerCase s) q))
  /\ filteredRows rows s `sublist_of` rows
  /\ filteredRows rows ""
     = List.filter (fun row => negb (bool_decide (CsvRow.rowData row = ∅))) rows
  /\ ((forall row, row ∈ rows -> CsvRow.rowData row <> ∅) ->
      filteredRows rows "" = rows).
Proof.
  split; [|split; [|split]].
  - intros row. unfold filteredRows.
    by rewrite list_elem_of_In, filter_In, <- list_elem_of_In, rowMatches_spec.
  - apply filteredRows_sublist.
  - unfold filteredRows. apply filter_ext. intros row. apply rowMatches_empty.
  - intros Hfields. unfold filteredRows.
    induction rows as [|r rows IH]; [done|]. cbn [List.filter].
    rewrite rowMatches_empty, bool_decide_eq_false_2
      by (apply Hfields; left).
    cbn. f_equal. apply IH. intros row Hin. apply Hfields. by right.
Qed.

Lemma filteredRows_spec_witness :
  filteredRows Sample.bobAl "" = Sample.bobAl
  /\ (Sample.row "r2" 1 "Al" "25" ∈ filteredRows Sample.bobAl "25").
Proof.
  split.
  - apply (filteredRows_spec Sample.bobAl "").
    intros row Hin.
    apply elem_of_cons in Hin as [->|Hin];
      [|apply list_elem_of_singleton in Hin as ->];
      intros Hempty;
      apply (f_equal (fun m : gmap string string => m !! "age")) in Hempty;
      by vm_compute in Hempty.
  - apply (filteredRows_spec Sample.bobAl "25"). split.
    + right. left.
    + exists "age", "25". split; [by vm_compute|]. by exists "", "".
Defined.

(** C1 fails as stated: a row with no field is dropped by the empty
    filter text. *)
Lemma filteredRows_empty_text_drops_blank_row :
  filteredRows [Sample.blank] "" = []
  /\ filteredRows (Sample.blank :: Sample.bobAl) "" = Sample.bobAl
  /\ filteredRows (Sample.blank :: Sample.bobAl) ""
     <> Sample.blank :: Sample.bobAl.
Proof. split; [|split]; by vm_compute. Qed.

(** ** Sorting *)

Section Sorting.

Context {A : Type} (cmp : A -> A -> Z) `{!Consistent cmp}.


Lemma cmp_total x y : 0 < cmp x y -> cmp y x < 0.
Proof. intros H. apply cmp_lt_gt. lia. Qed.

Lemma cmp_lt_eq x y z : cmp x y < 0 -> cmp y z = 0 -> cmp x z < 0.
Proof.
  intros Hxy Hyz.
  destruct (Z.lt_trichotomy (cmp x z) 0) as [Hlt|[Heq|Hgt]]; [done| |].
  - pose proof (cmp_eq_trans _ _ _ Heq (cmp_eq_sym _ _ Hyz)). lia.
  - pose proof (cmp_lt_trans _ _ _ (cmp_total _ _ Hgt) Hxy).
    pose proof (cmp_eq_sym _ _ Hyz). lia.
Qed.

Lemma cmp_eq_lt x y z : cmp x y = 0 -> cmp y z < 0 -> cmp x z < 0.
Proof.
  intros Hxy Hyz.
  destruct (Z.lt_trichotomy (cmp x z) 0) as [Hlt|[Heq|Hgt]]; [done| |].
  - pose proof (cmp_eq_trans _ _ _ (cmp_eq_sym _ _ Hxy) Heq). lia.
  - pose proof (cmp_lt_trans _ _ _ Hyz (cmp_total _ _ Hgt)).
    pose proof (cmp_eq_sym _ _ Hxy). lia.
Qed.

Lemma cmp_le_trans x y z : cmp_le cmp x y -> cmp_le cmp y z -> cmp_le cmp x z.
Proof.
  unfold cmp_le. intros Hxy Hyz.
  destruct (Z.eq_dec (cmp x y) 0) as [Hxy0|Hxy0];
    destruct (Z.eq_dec (cmp y z) 0) as [Hyz0|Hyz0].
  - pose proof (cmp_eq_trans _ _ _ Hxy0 Hyz0). lia.
  - pose proof (cmp_eq_lt x y z Hxy0 ltac:(lia)). lia.
  - pose proof (cmp_lt_eq x y z ltac:(lia) Hyz0). lia.
  - assert (Hlt1 : cmp x y < 0) by lia. assert (Hlt2 : cmp y z < 0) by lia.
    pose proof (cmp_lt_trans x y z Hlt1 Hlt2). lia.
Qed.

Lemma sort_insert_perm x l : Js.sort_insert cmp x l ≡ₚ x :: l.
Proof.
  induction l as [|y l IH]; simpl; [done|].
  destruct (cmp x y <=? 0); [done|].
  rewrite IH. apply Permutation_swap.
Qed.

Lemma sort_perm l : Js.sort cmp l ≡ₚ l.
Proof.
  induction l as [|x l IH]; simpl; [done|].
  by rewrite sort_insert_perm, IH.
Qed.

Lemma sort_insert_sorted x l :
  Sorted (cmp_le cmp) l -> Sorted (cmp_le cmp) (Js.sort_insert cmp x l).
Proof.
  induction 1 as [|y l Hl IH Hhd]; simpl.
  - repeat constructor.
  - destruct (Z.leb_spec (cmp x y) 0) as [Hle|Hgt].
    + constructor; [by constructor|]. by constructor.
    + constructor; [done|].
      destruct l as [|z l]; simpl.
      * constructor. unfold cmp_le. pose proof (cmp_total _ _ Hgt). lia.
      * destruct (Z.leb_spec (cmp x z) 0).
        -- constructor. unfold cmp_le. pose proof (cmp_total _ _ Hgt). lia.
        -- constructor. by inversion Hhd.
Qed.

Lemma sort_sorted l : Sorted (cmp_le cmp) (Js.sort cmp l).
Proof.
  induction l as [|x l IH]; simpl; [constructor|].
  by apply sort_insert_sorted.
Qed.

Lemma sort_strongly_sorted l : StronglySorted (cmp_le cmp) (Js.sort cmp l).
Proof.
  apply Sorted_StronglySorted; [|apply sort_sorted].
  intros x y z. apply cmp_le_trans.
Qed.

Lemma sort_of_sorted l : Sorted (cmp_le cmp) l -> Js.sort cmp l = l.
Proof.
  induction 1 as [|x l Hl IH Hhd]; simpl; [done|].
  rewrite IH. destruct Hhd as [|y l Hxy]; simpl; [done|].
  by rewrite (proj2 (Z.leb_le _ _) Hxy).
Qed.

Lemma sort_idempotent l : Js.sort cmp (Js.sort cmp l) = Js.sort cmp l.
Proof. apply sort_of_sorted, sort_sorted. Qed.

Lemma sort_insert_filter (P : A -> bool) x l :
  (forall y z, P y = true -> P z = true -> cmp y z = 0) ->
  List.filter P (Js.sort_insert cmp x l) = List.filter P (x :: l).
Proof.
  intros Hclass. induction l as [|y l IH]; [done|].
  cbn [Js.sort_insert]. destruct (Z.leb_spec (cmp x y) 0) as [Hle|Hgt]; [done|].
  cbn [List.filter] in *. rewrite IH.
  destruct (P x) eqn:Hx, (P y) eqn:Hy; try done.
  pose proof (Hclass x y Hx Hy). lia.
Qed.

Lemma sort_stable (P : A -> bool) l :
  (forall y z, P y = true -> P z = true -> cmp y z = 0) ->
  List.filter P (Js.sort cmp l) = List.filter P l.
Proof.
  intros Hclass. induction l as [|x l IH]; [done|].
  cbn [Js.sort foldr]. fold (Js.sort cmp l).
  rewrite sort_insert_filter by done.
  cbn [List.filter]. by rewrite IH.
Qed.

Lemma same_key_class z x y :
  same_key cmp z x = true -> same_key cmp z y = true -> cmp x y = 0.
Proof.
  unfold same_key. intros Hx%Z.eqb_eq Hy%Z.eqb_eq.
  eapply cmp_eq_trans; [apply cmp_eq_sym|]; done.
Qed.

Lemma same_key_refl z : same_key cmp z z = true.
Proof. unfold same_key. by rewrite cmp_refl. Qed.

Lemma sorted_unique l1 : forall l2,
  StronglySorted (cmp_le cmp) l1 -> StronglySorted (cmp_le cmp) l2 ->
  (forall z, List.filter (same_key cmp z) l1 = List.filter (same_key cmp z) l2) ->
  l1 = l2.
Proof.
  induction l1 as [|x l1 IH]; intros l2 Hs1 Hs2 Hclass.
  - destruct l2 as [|y l2]; [done|].
    specialize (Hclass y). cbn in Hclass.
    by rewrite same_key_refl in Hclass.
  - destruct l2 as [|y l2].
    + specialize (Hclass x). cbn in Hclass.
      by rewrite same_key_refl in Hclass.
    + apply StronglySorted_inv in Hs1 as [Hs1 Hx].
      apply StronglySorted_inv in Hs2 as [Hs2 Hy].
      assert (Hxy : cmp x y = 0).
      { (* x occurs in y :: l2 and y occurs in x :: l1 *)
        assert (Hx_in : In x (y :: l2)).
        { eapply (proj1 (filter_In (same_key cmp x) x (y :: l2))).
          rewrite <- Hclass. cbn. rewrite same_key_refl. by left. }
        assert (Hy_in : In y (x :: l1)).
        { eapply (proj1 (filter_In (same_key cmp y) y (x :: l1))).
          rewrite Hclass. cbn. rewrite same_key_refl. by left. }
        assert (Hyx : cmp y x <= 0).
        { destruct Hx_in as [->|Hin]; [rewrite cmp_refl; lia|].
          rewrite List.Forall_forall in Hy. by apply Hy. }
        assert (Hxy' : cmp x y <= 0).
        { destruct Hy_in as [->|Hin]; [rewrite cmp_refl; lia|].
          rewrite List.Forall_forall in Hx. by apply Hx. }
        destruct (Z.eq_dec (cmp x y) 0) as [|Hne]; [done|].
        assert (Hlt : cmp x y < 0) by lia. apply cmp_lt_gt in Hlt. lia. }
      assert (x = y) as <-.
      { specialize (Hclass x). cbn in Hclass.
        assert (Hk : same_key cmp x y = true) by (by apply Z.eqb_eq).
        rewrite same_key_refl, Hk in Hclass. congruence. }
      f_equal. apply IH; [done..|].
      intros z. specialize (Hclass z). cbn in Hclass.
      destruct (same_key cmp z x); congruence.
Qed.

(** Whatever algorithm the host runs, a stable sort returns what
    [Js.sort] returns: the one sorted arrangement that keeps, among the
    elements comparing equal, the order they came in. *)
Lemma sort_unique l l' :
  StronglySorted (cmp_le cmp) l' ->
  (forall z, List.filter (same_key cmp z) l' = List.filter (same_key cmp z) l) ->
  l' = Js.sort cmp l.
Proof.
  intros Hsorted Hstable.
  apply sorted_unique; [done | apply sort_strongly_sorted |].
  intros z. rewrite Hstable. symmetry. apply sort_stable, same_key_class.
Qed.

End Sorting.

(** Comparison by character codes is consistent. *)

Lemma codeCompare_refl (a : string) : codeCompare a a = 0.
Proof.
  induction a as [|c a IH]; simpl; [done|].
  by rewrite Z.sub_diag.
Qed.

Lemma codeCompare_antisym (a : string) : forall b,
  codeCompare b a = - codeCompare a b.
Proof.
  induction a as [|c a IH]; intros [|d b]; simpl; try done.
  destruct (Z.eqb_spec (Z.of_nat (nat_of_ascii c) - Z.of_nat (nat_of_ascii d)) 0);
    destruct (Z.eqb_spec (Z.of_nat (nat_of_ascii d) - Z.of_nat (nat_of_ascii c)) 0);
    try lia.
  apply IH.
Qed.

Lemma codeCompare_eq (a : string) : forall b, codeCompare a b = 0 -> a = b.
Proof.
  induction a as [|c a IH]; intros [|d b]; simpl; try done.
  destruct (Z.eqb_spec (Z.of_nat (nat_of_ascii c) - Z.of_nat (nat_of_ascii d)) 0)
    as [Hcd|Hcd]; [|done].
  intros Hab. f_equal; [|by apply IH].
  rewrite <- (ascii_nat_embedding c), <- (ascii_nat_embedding d).
  f_equal. lia.
Qed.

Lemma codeCompare_lt_trans (a : string) : forall b c,
  codeCompare a b < 0 -> codeCompare b c < 0 -> codeCompare a c < 0.
Proof.
  induction a as [|x a IH]; intros [|y b] [|z c]; simpl; try lia.
  destruct (Z.eqb_spec (Z.of_nat (nat_of_ascii x) - Z.of_nat (nat_of_ascii y)) 0);
    destruct (Z.eqb_spec (Z.of_nat (nat_of_ascii y) - Z.of_nat (nat_of_ascii z)) 0);
    destruct (Z.eqb_spec (Z.of_nat (nat_of_ascii x) - Z.of_nat (nat_of_ascii z)) 0);
    try lia.
  apply IH.
Qed.

#[export] Instance codeCompare_consistent : Consistent codeCompare.
Proof.
  split.
  - apply codeCompare_refl.
  - intros a b Hab. rewrite codeCompare_antisym. lia.
  - intros a b c Hab%codeCompare_eq Hbc%codeCompare_eq. subst.
    apply codeCompare_refl.
  - intros a b c. apply codeCompare_lt_trans.
  - intros a b. rewrite (codeCompare_antisym a b). lia.
Qed.

Section SortedRows.

Variable localeCompare : string -> string -> Z.
Context `{!Consistent localeCompare}.

#[local] Instance rowCompare_consistent (cfg : SortConfig) :
  Consistent (rowCompare localeCompare cfg).
Proof.
  unfold rowCompare. destruct (direction cfg); split.
  - intros a. apply cmp_refl.
  - intros a b. apply cmp_eq_sym.
  - intros a b c. apply cmp_eq_trans.
  - intros a b c. apply cmp_lt_trans.
  - intros a b. apply cmp_lt_gt.
  - intros a. apply cmp_refl.
  - intros a b. apply cmp_eq_sym.
  - intros a b c Hab Hbc. by apply (cmp_eq_trans _ _ _ Hbc Hab).
  - intros a b c Hab Hbc. by apply (cmp_lt_trans _ _ _ Hbc Hab).
  - intros a b. apply cmp_lt_gt.
Qed.

(** Rows whose value at the sort column compares equal to [v]. *)
Lemma value_class (k : string) (d : Direction) (v : string) (a b : CsvRow.t) :
  (localeCompare v (fieldOr a k) =? 0) = true ->
  (localeCompare v (fieldOr b k) =? 0) = true ->
  rowCompare localeCompare {| key := k; direction := d |} a b = 0.
Proof.
  intros Ha%Z.eqb_eq Hb%Z.eqb_eq. unfold rowCompare. cbn [key direction].
  destruct d.
  - eapply cmp_eq_trans; [apply cmp_eq_sym|]; done.
  - eapply cmp_eq_trans; [apply cmp_eq_sym|]; done.
Qed.

(** The rows a comparator of one direction deems equal are those the
    comparator of the other direction deems equal. *)
Lemma same_key_opposite (k : string) (d : Direction) (z a b : CsvRow.t) :
  same_key (rowCompare localeCompare {| key := k; direction := d |}) z a = true ->
  same_key (rowCompare localeCompare {| key := k; direction := d |}) z b = true ->
  rowCompare localeCompare {| key := k; direction := opposite d |} a b = 0.
Proof.
  intros Ha Hb.
  pose proof (same_key_class _ z b a Hb Ha) as Hba.
  unfold rowCompare in *. cbn [key direction] in *. by destruct d.
Qed.

Lemma handleSort_twice (rows : list CsvRow.t) (st : ViewState) (cfg : SortConfig) :
  sortConfig st = Some cfg ->
  sortConfig (handleSort (key cfg) (handleSort (key cfg) st)) = Some cfg.
Proof.
  intros Hcfg. unfold handleSort. cbn [sortConfig setSortConfig]. rewrite Hcfg.
  cbn [key direction]. rewrite !String.eqb_refl.
  destruct cfg as [k []]; cbn; by rewrite ?String.eqb_refl.
Qed.

(** C5, as the code has it.  The sort is stable: the rows whose value at
    the sort column compares equal to a given value come in the order
    they had before sorting.  It is idempotent: sorting the sorted
    sequence again leaves it as it is.  Toggling the direction twice
    shows the sequence that was shown before the two toggles, which is
    the sort of the filtered rows, not their unsorted order; sorting the
    sorted sequence in the other direction and back gives that sequence
    too. *)
Theorem sortedRows_stable_idempotent
  (rows filtered : list CsvRow.t) (st : ViewState) (cfg : SortConfig) :
  let sorted := sortedRowsOf localeCompare filtered (Some cfg) in
  (forall v,
     List.filter (fun r => localeCompare v (fieldOr r (key cfg)) =? 0) sorted
     = List.filter (fun r => localeCompare v (fieldOr r (key cfg)) =? 0) filtered)
  /\ sorted ≡ₚ filtered
  /\ Sorted (fun a b => rowCompare localeCompare cfg a b <= 0) sorted
  /\ sortedRowsOf localeCompare sorted (Some cfg) = sorted
  /\ (sortConfig st = Some cfg ->
      sortedRows localeCompare rows (handleSort (key cfg) (handleSort (key cfg) st))
      = sortedRows localeCompare rows st)
  /\ sortedRowsOf localeCompare
       (sortedRowsOf localeCompare sorted
          (Some {| key := key cfg; direction := opposite (direction cfg) |}))
       (Some cfg)
     = sorted.
Proof.
  intros sorted. subst sorted. cbn [sortedRowsOf].
  split; [|split; [|split; [|split; [|split]]]].
  - intros v. apply (sort_stable (rowCompare localeCompare cfg)).
    intros a b Ha Hb. destruct cfg as [k d]. by apply (value_class k d v).
  - apply sort_perm.
  - apply (sort_sorted (rowCompare localeCompare cfg)).
  - apply (sort_idempotent (rowCompare localeCompare cfg)).
  - intros Hcfg. unfold sortedRows.
    rewrite (handleSort_twice rows st cfg Hcfg), Hcfg. done.
  - destruct cfg as [k d]. cbn [key direction].
    set (cmp := rowCompare localeCompare {| key := k; direction := d |}).
    set (cmp' := rowCompare localeCompare {| key := k; direction := opposite d |}).
    assert (Hc : Consistent cmp) by apply rowCompare_consistent.
    assert (Hc' : Consistent cmp') by apply rowCompare_consistent.
    apply (sorted_unique cmp); [by apply sort_strongly_sorted..|].
    intros z.
    rewrite (sort_stable cmp) by (by apply same_key_class).
    rewrite (sort_stable cmp'); [done|].
    intros a b. apply same_key_opposite.
Qed.

End SortedRows.

Lemma sortedRows_stable_idempotent_witness :
  let cfg := {| key := "name"; direction := asc |} in
  let st := handleSort "name" (initialState Sample.headers) in
  let sorted := sortedRowsOf codeCompare Sample.bobAl (Some cfg) in
  sortedRowsOf codeCompare sorted (Some cfg) = sorted
  /\ sortedRows codeCompare Sample.bobAl (handleSort "name" (handleSort "name" st))
     = sortedRows codeCompare Sample.bobAl st.
Proof.
  intros cfg st sorted.
  destruct (sortedRows_stable_idempotent codeCompare Sample.bobAl Sample.bobAl
              st cfg) as (_ & _ & _ & Hidem & Htoggle & _).
  split; [exact Hidem|]. apply Htoggle. reflexivity.
Defined.

(** C5 fails as stated: the rows Bob, Al, Cy are shown as Al, Bob, Cy or
    as Cy, Bob, Al after any number of toggles, never again in their
    filtered order. *)
Lemma toggle_twice_not_filtered_order :
  let st1 := handleSort "name" (initialState Sample.headers) in
  let st2 := handleSort "name" st1 in
  let st3 := handleSort "name" st2 in
  filteredRows Sample.bobAlCy (filterText st3) = Sample.bobAlCy
  /\ CsvRow.id <$> sortedRows codeCompare Sample.bobAlCy st1 = ["r2"; "r1"; "r3"]
  /\ CsvRow.id <$> sortedRows codeCompare Sample.bobAlCy st2 = ["r3"; "r1"; "r2"]
  /\ CsvRow.id <$> sortedRows codeCompare Sample.bobAlCy st3 = ["r2"; "r1"; "r3"]
  /\ sortedRows codeCompare Sample.bobAlCy st2
     <> filteredRows Sample.bobAlCy (filterText st2)
  /\ sortedRows codeCompare Sample.bobAlCy st3
     <> filteredRows Sample.bobAlCy (filterText st3).
Proof.
  intros st1 st2 st3.
  split; [by vm_compute|]. split; [by vm_compute|].
  split; [by vm_compute|]. split; [by vm_compute|].
  split; intros Heq; apply (f_equal (fmap CsvRow.id)) in Heq;
    by vm_compute in Heq.
Qed.

(** * Further properties of the viewer *)

(** ** Column visibility *)

Lemma Array_includes_true (l : list string) (x : string) :
  Array_includes l x = true <-> x ∈ l.
Proof. unfold Array_includes. apply bool_decide_eq_true. Qed.

Lemma elem_of_List_filter {A} (f : A -> bool) (l : list A) (x : A) :
  x ∈ List.filter f l <-> x ∈ l /\ f x = true.
Proof. by rewrite !list_elem_of_In, filter_In. Qed.

Lemma List_filter_Permutation {A} (f : A -> bool) (l l' : list A) :
  l ≡ₚ l' -> List.filter f l ≡ₚ List.filter f l'.
Proof.
  induction 1 as [|x l l' _ IH|x y l|l l' l'' _ IH1 _ IH2]; cbn.
  - done.
  - destruct (f x); by rewrite IH.
  - destruct (f x), (f y); try done. apply Permutation_swap.
  - by rewrite IH1.
Qed.

Lemma filter_neq_notin (l : list string) (x : string) :
  x ∉ l -> List.filter (fun c => negb (String.eqb c x)) l = l.
Proof.
  induction l as [|y l IH]; intros Hx; [done|]. cbn.
  apply not_elem_of_cons in Hx as [Hne Hx].
  rewrite (proj2 (String.eqb_neq y x)) by congruence. cbn. by rewrite IH.
Qed.

Lemma visible_after_toggle (column c : string) (st : ViewState) :
  Array_includes (visibleColumns (handleColumnToggle column st)) c
  = if String.eqb c column
    then negb (Array_includes (visibleColumns st) column)
    else Array_includes (visibleColumns st) c.
Proof.
  unfold handleColumnToggle. cbn [visibleColumns setVisibleColumns].
  destruct (Array_includes (visibleColumns st) column) eqn:Hvis.
  - destruct (String.eqb_spec c column) as [->|Hne]; cbn.
    + apply bool_decide_eq_false. rewrite elem_of_List_filter.
      intros [_ H]. by rewrite String.eqb_refl in H.
    + unfold Array_includes. apply bool_decide_ext.
      rewrite elem_of_List_filter.
      rewrite (proj2 (String.eqb_neq c column) Hne). cbn. tauto.
  - destruct (String.eqb_spec c column) as [->|Hne]; cbn.
    + apply bool_decide_eq_true. apply elem_of_app. right. by left.
    + unfold Array_includes. apply bool_decide_ext.
      rewrite elem_of_app, list_elem_of_singleton. tauto.
Qed.

(** X1: [handleColumnToggle] flips the visibility of the toggled column,
    whether it was listed once or several times, and of no other. *)
Theorem handleColumnToggle_flips (column c : string) (st : ViewState) :
  Array_includes (visibleColumns (handleColumnToggle column st)) c
  = if String.eqb c column
    then negb (Array_includes (visibleColumns st) column)
    else Array_includes (visibleColumns st) c.
Proof.
  unfold handleColumnToggle. cbn [visibleColumns setVisibleColumns].
  destruct (Array_includes (visibleColumns st) column) eqn:Hvis.
  - destruct (String.eqb_spec c column) as [->|Hne]; cbn.
    + apply bool_decide_eq_false. rewrite elem_of_List_filter.
      intros [_ H]. by rewrite String.eqb_refl in H.
    + unfold Array_includes. apply bool_decide_ext.
      rewrite elem_of_List_filter.
      rewrite (proj2 (String.eqb_neq c column) Hne). cbn. tauto.
  - destruct (String.eqb_spec c column) as [->|Hne]; cbn.
    + apply bool_decide_eq_true. apply elem_of_app. right. by left.
    + unfold Array_includes. apply bool_decide_ext.
      rewrite elem_of_app, list_elem_of_singleton. tauto.
Qed.

Lemma renderedColumns_ext (st st' : ViewState) :
  columnOrder st' = columnOrder st ->
  (forall c, Array_includes (visibleColumns st') c
             = Array_includes (visibleColumns st) c) ->
  renderedColumns st' = renderedColumns st.
Proof.
  intros Ho Hv. unfold renderedColumns. rewrite Ho.
  apply filter_ext. intros [c|]; [apply Hv | done].
Qed.

(** X2: toggling a column twice shows the columns that were shown before.
    The view state is back as it was when the column was hidden; when it
    was visible, the column has moved to the end of [visibleColumns]. *)
Theorem handleColumnToggle_twice (column : string) (st : ViewState) :
  renderedColumns (handleColumnToggle column (handleColumnToggle column st))
  = renderedColumns st
  /\ (column ∉ visibleColumns st ->
      handleColumnToggle column (handleColumnToggle column st) = st)
  /\ (column ∈ visibleColumns st ->
      visibleColumns (handleColumnToggle column (handleColumnToggle column st))
      = List.filter (fun c => negb (String.eqb c column)) (visibleColumns st)
        ++ [column]).
Proof.
  split; [|split].
  - apply renderedColumns_ext; [done|]. intros c.
    rewrite !visible_after_toggle.
    destruct (String.eqb_spec c column) as [->|Hne]; [|done].
    rewrite String.eqb_refl. cbn. apply negb_involutive.
  - intros Hhidden. destruct st as [sel cfg vis ord ft cp ec ev].
    unfold handleColumnToggle, setVisibleColumns. cbn in *. f_equal.
    assert (Array_includes vis column = false) as ->
      by by apply bool_decide_eq_false.
    assert (Array_includes (vis ++ [column]) column = true) as ->.
    { apply Array_includes_true, elem_of_app. right. by left. }
    rewrite List.filter_app. cbn. rewrite String.eqb_refl. cbn.
    rewrite app_nil_r. by apply filter_neq_notin.
  - intros Hvis. unfold handleColumnToggle. cbn [visibleColumns setVisibleColumns].
    assert (Array_includes (visibleColumns st) column = true) as ->
      by by apply Array_includes_true.
    set (rest := List.filter _ _).
    assert (Array_includes rest column = false) as ->; [|done].
    apply bool_decide_eq_false. subst rest. rewrite elem_of_List_filter.
    intros [_ H]. by rewrite String.eqb_refl in H.
Qed.

Lemma handleColumnToggle_twice_witness :
  let st := initialState Sample.headers in
  handleColumnToggle "zip" (handleColumnToggle "zip" st) = st
  /\ visibleColumns (handleColumnToggle "name" (handleColumnToggle "name" st))
     = ["age"; "name"].
Proof.
  intros st.
  destruct (handleColumnToggle_twice "zip" st) as (_ & Hhidden & _).
  destruct (handleColumnToggle_twice "name" st) as (_ & _ & Hvisible).
  split.
  - apply Hhidden.
    apply (bool_decide_eq_false_1 ("zip" ∈ visibleColumns st)). by vm_compute.
  - rewrite Hvisible; [done|].
    apply (bool_decide_eq_true_1 ("name" ∈ visibleColumns st)). by vm_compute.
Defined.

(** X3: moving a column shows the columns that were shown before, in the
    new order: the rendered columns are a permutation of the earlier ones
    and [visibleColumns] is untouched. *)
Theorem handleColumnReorder_rendered (dragIndex dropIndex : Z) (st : ViewState) :
  0 <= dragIndex < Z.of_nat (length (columnOrder st)) ->
  0 <= dropIndex < Z.of_nat (length (columnOrder st)) ->
  exists st',
    handleColumnReorder dragIndex dropIndex st = Js.Normal st'
    /\ visibleColumns st' = visibleColumns st
    /\ renderedColumns st' ≡ₚ renderedColumns st
    /\ length (renderedColumns st') = length (renderedColumns st).
Proof.
  intros Hdrag Hdrop. eexists. split; [done|]. split; [done|].
  assert (Hperm : renderedColumns
            (setColumnOrder (reorder (columnOrder st) dragIndex dropIndex) st)
          ≡ₚ renderedColumns st).
  { unfold renderedColumns. cbn [columnOrder visibleColumns setColumnOrder].
    apply List_filter_Permutation. by apply reorder_spec. }
  split; [done|]. by rewrite Hperm.
Qed.

Lemma handleColumnReorder_rendered_witness :
  exists st',
    handleColumnReorder 1 0 (handleColumnToggle "age" (initialState Sample.headers))
    = Js.Normal st'
    /\ renderedColumns st' ≡ₚ [Some "name"].
Proof.
  destruct (handleColumnReorder_rendered 1 0
              (handleColumnToggle "age" (initialState Sample.headers)))
    as (st' & Hrun & _ & Hperm & _); [cbn; lia | cbn; lia |].
  exists st'. split; [exact Hrun|]. exact Hperm.
Defined.

(** ** Selection, pages and the range line *)

Section ViewerProperties.
Variable localeCompare : string -> string -> Z.

(** X4: a row's checkbox sets the selection of that row to the new state
    of the box and leaves the selection of every other row as it was. *)
Theorem onChangeRowChecked_sets (row row' : CsvRow.t) (checked : bool) (st : ViewState) :
  rowChecked row' (onChangeRowChecked row checked st)
  = if String.eqb (CsvRow.id row') (CsvRow.id row) then checked
    else rowChecked row' st.
Proof.
  unfold rowChecked, onChangeRowChecked. cbn [selectedRows setSelectedRows].
  destruct (String.eqb_spec (CsvRow.id row') (CsvRow.id row)) as [->|Hne];
    destruct checked.
  - apply bool_decide_eq_true, elem_of_union. left. by apply elem_of_singleton.
  - apply bool_decide_eq_false. rewrite elem_of_difference, elem_of_singleton.
    tauto.
  - apply bool_decide_ext. rewrite elem_of_union, elem_of_singleton. tauto.
  - apply bool_decide_ext. rewrite elem_of_difference, elem_of_singleton. tauto.
Qed.

Lemma paginatedRows_setSelectedRows rows s st :
  paginatedRows localeCompare rows (setSelectedRows s st)
  = paginatedRows localeCompare rows st.
Proof. done. Qed.

(** X5: checking the header box replaces the selection by the rows of the
    current page, so rows selected on other pages are no longer selected;
    unchecking it clears the whole selection.  After checking, the header
    box shows checked when the page's row identifiers are distinct; after
    unchecking, it shows checked exactly when the page is empty. *)
Theorem onChangeHeaderChecked_replaces (rows : list CsvRow.t) (st : ViewState) :
  (forall row,
     rowChecked row (onChangeHeaderChecked localeCompare rows true st)
     = bool_decide (CsvRow.id row ∈ CsvRow.id <$> paginatedRows localeCompare rows st))
  /\ (forall row,
        rowChecked row (onChangeHeaderChecked localeCompare rows false st) = false)
  /\ (NoDup (CsvRow.id <$> paginatedRows localeCompare rows st) ->
      headerChecked localeCompare rows
        (onChangeHeaderChecked localeCompare rows true st) = true)
  /\ (headerChecked localeCompare rows
        (onChangeHeaderChecked localeCompare rows false st)
      = bool_decide (paginatedRows localeCompare rows st = [])).
Proof.
  split; [|split; [|split]].
  - intros row. unfold rowChecked, onChangeHeaderChecked.
    cbn [selectedRows setSelectedRows]. apply bool_decide_ext.
    by rewrite elem_of_list_to_set.
  - intros row. unfold rowChecked, onChangeHeaderChecked.
    cbn [selectedRows setSelectedRows]. by apply bool_decide_eq_false.
  - intros Hnd. unfold headerChecked, onChangeHeaderChecked.
    rewrite paginatedRows_setSelectedRows. cbn [selectedRows setSelectedRows].
    apply Z.eqb_eq. f_equal.
    rewrite size_list_to_set by done. by rewrite length_fmap.
  - unfold headerChecked, onChangeHeaderChecked.
    rewrite paginatedRows_setSelectedRows. cbn [selectedRows setSelectedRows].
    rewrite size_empty.
    destruct (paginatedRows localeCompare rows st) as [|r l]; [done|].
    by rewrite bool_decide_eq_false_2.
Qed.

Lemma slice_sublist {A} (l : list A) (start end_ : Z) :
  Js.slice l start end_ `sublist_of` l.
Proof.
  unfold Js.slice. etransitivity; [apply sublist_take | apply sublist_drop].
Qed.

Lemma slice_length_le {A} (l : list A) (start count : Z) :
  0 <= count -> (length (Js.slice l start (start + count)) <= Z.to_nat count)%nat.
Proof.
  intros Hc. unfold Js.slice, Js.relativeIndex.
  rewrite length_take. 
  destruct (Z.ltb_spec start 0), (Z.ltb_spec (start + count) 0); lia.
Qed.

(** X6: for every integer [currentPage], in range or not, the page shown
    holds at most ten rows, and they are rows of the sorted sequence in
    its order. *)
Theorem paginatedRows_bounds (rows : list CsvRow.t) (st : ViewState) :
  (length (paginatedRows localeCompare rows st) <= 10)%nat
  /\ paginatedRows localeCompare rows st `sublist_of` sortedRows localeCompare rows st.
Proof.
  split.
  - apply (slice_length_le _ _ 10). lia.
  - apply slice_sublist.
Qed.

Lemma sortedRowsOf_perm filtered cfg :
  sortedRowsOf localeCompare filtered cfg ≡ₚ filtered.
Proof. destruct cfg; [apply sort_perm | done]. Qed.

(** X7: sorting neither drops nor adds a row: the sorted sequence is a
    permutation of the filtered one, so its rows are the rows of the data
    set that match the filter text, and every row of the page shown is
    one of them. *)
Theorem displayed_rows_match (rows : list CsvRow.t) (st : ViewState) :
  sortedRows localeCompare rows st ≡ₚ filteredRows rows (filterText st)
  /\ (forall row,
        row ∈ sortedRows localeCompare rows st
        <-> row ∈ rows /\ rowMatches (filterText st) row = true)
  /\ (forall row,
        row ∈ paginatedRows localeCompare rows st ->
        row ∈ rows /\ rowMatches (filterText st) row = true).
Proof.
  assert (Hperm : sortedRows localeCompare rows st ≡ₚ filteredRows rows (filterText st))
    by apply sortedRowsOf_perm.
  assert (Hin : forall row, row ∈ sortedRows localeCompare rows st
        <-> row ∈ rows /\ rowMatches (filterText st) row = true).
  { intros row. rewrite Hperm. apply elem_of_List_filter. }
  split; [done|]. split; [done|].
  intros row Hrow. apply Hin.
  eapply elem_of_sublist; [exact Hrow|]. apply slice_sublist.
Qed.

(** X8: on a page within [1, totalPages] the line "Showing from to to of
    total" is right: [from <= to <= total] and the page shows
    [to - from + 1] rows. *)
Theorem showing_range (rows : list CsvRow.t) (st : ViewState) :
  1 <= currentPage st <= totalPages localeCompare rows st ->
  showingFrom st <= showingTo localeCompare rows st
                 <= showingTotal localeCompare rows st
  /\ Z.of_nat (length (paginatedRows localeCompare rows st))
     = showingTo localeCompare rows st - showingFrom st + 1.
Proof.
  intros Hpage. unfold showingFrom, showingTo, showingTotal, paginatedRows, totalPages in *.
  set (l := sortedRows localeCompare rows st) in *.
  pose proof (totalPagesOf_spec l) as Hspec. unfold rowsPerPage in *.
  rewrite paginatedRowsOf_take_drop by lia.
  rewrite length_take, length_drop. lia.
Qed.

(** X9: when the current page lies past the last page, as after a filter
    that left fewer pages, Next brings it to the last page, while Previous
    only steps back by one. *)
Theorem onClickNext_recovers (rows : list CsvRow.t) (st : ViewState) :
  1 <= totalPages localeCompare rows st < currentPage st ->
  currentPage (onClickNext localeCompare rows st) = totalPages localeCompare rows st
  /\ currentPage (onClickPrevious st) = currentPage st - 1.
Proof.
  intros Hout. unfold onClickNext, onClickPrevious.
  destruct (Z.eqb_spec (currentPage st) (totalPages localeCompare rows st)); [lia|].
  destruct (Z.eqb_spec (currentPage st) 1); [lia|].
  cbn. lia.
Qed.
End ViewerProperties.

Lemma onChangeHeaderChecked_replaces_witness :
  let st := onChangeRowChecked Sample.blank true (initialState Sample.headers) in
  let st' := onChangeHeaderChecked codeCompare Sample.bobAl true st in
  headerChecked codeCompare Sample.bobAl st' = true
  /\ rowChecked Sample.blank st' = false.
Proof.
  intros st st'.
  destruct (onChangeHeaderChecked_replaces codeCompare Sample.bobAl st)
    as (Hrows & _ & Hheader & _).
  split.
  - apply Hheader.
    apply (bool_decide_eq_true_1
             (NoDup (CsvRow.id <$> paginatedRows codeCompare Sample.bobAl st))).
    by vm_compute.
  - unfold st'. rewrite Hrows. by vm_compute.
Defined.

Lemma displayed_rows_match_witness :
  let st := onChangeFilter "25" (initialState Sample.headers) in
  Sample.row "r2" 1 "Al" "25" ∈ Sample.bobAl
  /\ rowMatches (filterText st) (Sample.row "r2" 1 "Al" "25") = true.
Proof.
  intros st.
  apply (proj2 (proj2 (displayed_rows_match codeCompare Sample.bobAl st))).
  assert (paginatedRows codeCompare Sample.bobAl st
          = [Sample.row "r2" 1 "Al" "25"]) as -> by (by vm_compute).
  left.
Defined.

Lemma showing_range_witness :
  let st := onClickNext codeCompare Sample.eleven (initialState Sample.headers) in
  showingFrom st = 11
  /\ showingTo codeCompare Sample.eleven st = 11
  /\ Z.of_nat (length (paginatedRows codeCompare Sample.eleven st)) = 1.
Proof.
  intros st.
  assert (Hp : currentPage st = 2) by (by vm_compute).
  assert (Ht : totalPages codeCompare Sample.eleven st = 2) by (by vm_compute).
  destruct (showing_range codeCompare Sample.eleven st) as [_ Hlen];
    [rewrite Hp, Ht; lia|].
  assert (Hfrom : showingFrom st = 11) by (by vm_compute).
  assert (Hto : showingTo codeCompare Sample.eleven st = 11) by (by vm_compute).
  split; [done|]. split; [done|]. rewrite Hlen, Hfrom, Hto. done.
Defined.

Lemma onClickNext_recovers_witness :
  let st := onChangeFilter "zed"
              (onClickNext codeCompare Sample.eleven
                 (initialState Sample.headers)) in
  currentPage st = 2
  /\ currentPage (onClickNext codeCompare Sample.eleven st) = 1.
Proof.
  intros st.
  assert (Hp : currentPage st = 2) by (by vm_compute).
  assert (Ht : totalPages codeCompare Sample.eleven st = 1) by (by vm_compute).
  split; [done|].
  destruct (onClickNext_recovers codeCompare Sample.eleven st) as [Hnext _];
    [rewrite Hp, Ht; lia|].
  by rewrite Hnext, Ht.
Defined.

(** ** Narrowing the filter; sorting and filtering *)

Lemma append_assoc' (a b c : string) :
  String.append (String.append a b) c = String.append a (String.append b c).
Proof. induction a as [|x a IH]; [done|]. rewrite !append_String. by rewrite IH. Qed.

Lemma List_filter_sublist_impl {A} (f g : A -> bool) (l : list A) :
  (forall x, f x = true -> g x = true) ->
  List.filter f l `sublist_of` List.filter g l
  /\ List.filter f (List.filter g l) = List.filter f l.
Proof.
  intros Himpl. induction l as [|x l [IH1 IH2]]; [done|]. cbn.
  destruct (f x) eqn:Hf.
  - rewrite (Himpl x Hf). cbn. rewrite Hf. split; [by constructor | by f_equal].
  - destruct (g x); cbn; rewrite ?Hf; split; try done. by constructor.
Qed.

(** X10: when the lowercase form of a filter text contains the lowercase
    form of the previous one, it keeps a part, in order, of the rows the
    previous one kept, and filtering what the previous text kept gives
    what filtering all rows gives.  Lowercase forms are what the filter
    compares; nothing is assumed of how [toLowerCase] treats a longer
    text. *)
Theorem filter_narrows (rows : list CsvRow.t) (s s' : string) :
  (exists p q,
     Js.toLowerCase s'
     = String.append p (String.append (Js.toLowerCase s) q)) ->
  filteredRows rows s' `sublist_of` filteredRows rows s
  /\ filteredRows (filteredRows rows s) s' = filteredRows rows s'.
Proof.
  intros (p & q & Hs). apply List_filter_sublist_impl.
  intros row. rewrite !rowMatches_spec.
  intros (k & v & Hk & p' & q' & Hv). exists k, v. split; [done|].
  exists (String.append p' p), (String.append q q').
  rewrite Hv, Hs, !append_assoc'. done.
Qed.

Section SortingMore.
Context {A : Type} (cmp : A -> A -> Z) `{!Consistent cmp}.

Lemma StronglySorted_filter (R : A -> A -> Prop) (P : A -> bool) (l : list A) :
  StronglySorted R l -> StronglySorted R (List.filter P l).
Proof.
  induction 1 as [|x l Hl IH Hx]; cbn; [constructor|].
  destruct (P x); [|done]. constructor; [done|].
  rewrite List.Forall_forall in *. intros y Hy. apply Hx.
  by apply filter_In in Hy as [Hy _].
Qed.

Lemma List_filter_comm (f g : A -> bool) (l : list A) :
  List.filter f (List.filter g l) = List.filter g (List.filter f l).
Proof.
  induction l as [|x l IH]; [done|]. cbn.
  destruct (f x) eqn:Hf, (g x) eqn:Hg; cbn; rewrite ?Hf, ?Hg, ?IH; done.
Qed.

Lemma sort_filter (P : A -> bool) (l : list A) :
  Js.sort cmp (List.filter P l) = List.filter P (Js.sort cmp l).
Proof.
  symmetry. apply (sort_unique cmp).
  - exact (StronglySorted_filter _ _ _ (sort_strongly_sorted cmp l)).
  - intros z. rewrite List_filter_comm, (sort_stable cmp) by (by apply same_key_class).
    apply List_filter_comm.
Qed.

Lemma StronglySorted_snoc (R : A -> A -> Prop) (l : list A) (x : A) :
  StronglySorted R l -> Forall (fun y => R y x) l -> StronglySorted R (l ++ [x]).
Proof.
  induction 1 as [|y l Hl IH Hy]; intros Hx; cbn.
  - repeat constructor.
  - apply Forall_cons in Hx as [Hyx Hx]. constructor; [by apply IH|].
    apply List.Forall_app. split; [done|]. by constructor.
Qed.

Lemma StronglySorted_reverse (R : A -> A -> Prop) (l : list A) :
  StronglySorted R l -> StronglySorted (fun x y => R y x) (reverse l).
Proof.
  induction 1 as [|x l Hl IH Hx]; [constructor|].
  rewrite reverse_cons. apply StronglySorted_snoc; [done|].
  apply Forall_reverse. done.
Qed.

Lemma List_filter_reverse (P : A -> bool) (l : list A) :
  List.filter P (reverse l) = reverse (List.filter P l).
Proof.
  induction l as [|x l IH]; [done|].
  rewrite reverse_cons, List.filter_app, IH. cbn [List.filter].
  destruct (P x); [by rewrite reverse_cons | apply app_nil_r].
Qed.

Lemma class_at_most_one (l : list A) (z : A) :
  ForallOrdPairs (fun a b => cmp a b <> 0) l ->
  (length (List.filter (same_key cmp z) l) <= 1)%nat.
Proof.
  induction 1 as [|x l Hx Hl IH]; cbn; [lia|].
  destruct (same_key cmp z x) eqn:Hzx; [|done].
  destruct (List.filter (same_key cmp z) l) as [|y ys] eqn:Hf; [cbn; lia|].
  assert (Hy : In y (List.filter (same_key cmp z) l)) by (rewrite Hf; by left).
  apply filter_In in Hy as [Hy Hzy]. rewrite List.Forall_forall in Hx.
  destruct (Hx y Hy). by apply (same_key_class cmp z).
Qed.

Lemma reverse_short (l : list A) : (length l <= 1)%nat -> reverse l = l.
Proof. destruct l as [|x [|y l]]; cbn; (done || lia). Qed.

Lemma sort_flip_reverse (l : list A) :
  ForallOrdPairs (fun a b => cmp a b <> 0) l ->
  Js.sort (fun x y => cmp y x) l = reverse (Js.sort cmp l).
Proof.
  intros Hties.
  assert (Hflip : Consistent (fun x y => cmp y x)).
  { split.
    - intros a. apply cmp_refl.
    - intros a b. apply cmp_eq_sym.
    - intros a b c Hab Hbc. by apply (cmp_eq_trans _ _ _ Hbc Hab).
    - intros a b c Hab Hbc. by apply (cmp_lt_trans _ _ _ Hbc Hab).
    - intros a b. apply cmp_lt_gt. }
  symmetry. apply (sort_unique (fun x y => cmp y x)).
  - exact (StronglySorted_reverse (cmp_le cmp) _ (sort_strongly_sorted cmp l)).
  - intros z.
    assert (Hsame : forall y, same_key (fun x y => cmp y x) z y = same_key cmp z y).
    { intros y. unfold same_key.
      destruct (Z.eqb_spec (cmp y z) 0) as [H|H];
        destruct (Z.eqb_spec (cmp z y) 0) as [H'|H']; try done.
      - by apply cmp_eq_sym in H.
      - by apply cmp_eq_sym in H'. }
    rewrite !(filter_ext _ _ Hsame).
    rewrite List_filter_reverse, (sort_stable cmp) by (by apply same_key_class).
    apply reverse_short. by apply class_at_most_one.
Qed.

End SortingMore.

Lemma filter_narrows_witness :
  filteredRows Sample.bobAl "Bob" `sublist_of` filteredRows Sample.bobAl "o"
  /\ filteredRows (filteredRows Sample.bobAl "o") "Bob"
     = filteredRows Sample.bobAl "Bob".
Proof.
  apply (filter_narrows Sample.bobAl "o" "Bob"). by exists "b", "b".
Defined.

Section SortedRowsMore.

Variable localeCompare : string -> string -> Z.
Context `{!Consistent localeCompare}.

(** X11: filtering and sorting commute: the rows shown are the sorted data
    set with the rows that do not match taken out, so a change of the
    filter text never changes the order in which two rows are shown. *)
Theorem sortedRows_filter_commute (rows : list CsvRow.t) (st : ViewState) :
  sortedRows localeCompare rows st
  = filteredRows (sortedRowsOf localeCompare rows (sortConfig st)) (filterText st).
Proof.
  unfold sortedRows, filteredRows. destruct (sortConfig st) as [cfg|]; [|done].
  cbn [sortedRowsOf].
  pose proof (rowCompare_consistent localeCompare cfg) as Hcfg.
  apply (sort_filter (rowCompare localeCompare cfg)).
Qed.

(** X12: when no two rows compare equal at the sort column, the descending
    order is the ascending order read backwards. *)
Theorem descending_reverses_ascending (filtered : list CsvRow.t) (k : string) :
  ForallOrdPairs
    (fun a b => localeCompare (fieldOr a k) (fieldOr b k) <> 0) filtered ->
  sortedRowsOf localeCompare filtered (Some {| key := k; direction := desc |})
  = reverse
      (sortedRowsOf localeCompare filtered (Some {| key := k; direction := asc |})).
Proof.
  intros Hties. cbn [sortedRowsOf].
  pose proof (rowCompare_consistent localeCompare
                {| key := k; direction := asc |}) as Hcfg.
  exact (sort_flip_reverse
           (rowCompare localeCompare {| key := k; direction := asc |})
           filtered Hties).
Qed.

End SortedRowsMore.

Lemma sortedRows_filter_commute_witness :
  let st := onChangeFilter "o" (handleSort "name" (initialState Sample.headers)) in
  sortedRows codeCompare Sample.bobAlCy st
  = filteredRows (sortedRowsOf codeCompare Sample.bobAlCy (sortConfig st)) "o".
Proof.
  intros st. exact (sortedRows_filter_commute codeCompare Sample.bobAlCy st).
Defined.

Lemma descending_reverses_ascending_witness :
  sortedRowsOf codeCompare Sample.bobAlCy
    (Some {| key := "name"; direction := desc |})
  = reverse (sortedRowsOf codeCompare Sample.bobAlCy
               (Some {| key := "name"; direction := asc |})).
Proof.
  apply (descending_reverses_ascending codeCompare Sample.bobAlCy "name").
  repeat constructor; by vm_compute.
Defined.

(** ** Editing: a commit without typing *)

(** X13: a click on a cell followed by a commit, nothing typed, still calls
    the row update once: with the row's data as they are when the row has
    the column, and with the column added as the empty string when it has
    not. *)
Theorem commit_without_typing
  (rows : list CsvRow.t) (row : CsvRow.t) (col : string) (st : ViewState) :
  NoDup (CsvRow.id <$> rows) ->
  row ∈ rows ->
  let run := handleCellSave rows (onClickCell row col st) in
  updateCalls run
  = [(CsvRow.id row, <[col := fieldOr row col]> (CsvRow.rowData row))]
  /\ (is_Some (CsvRow.rowData row !! col) ->
      updateCalls run = [(CsvRow.id row, CsvRow.rowData row)])
  /\ (CsvRow.rowData row !! col = None ->
      updateCalls run
      = [(CsvRow.id row, <[col := ""]> (CsvRow.rowData row))]).
Proof.
  intros Hnd Hin run.
  assert (Hcalls : updateCalls run
    = [(CsvRow.id row, <[col := fieldOr row col]> (CsvRow.rowData row))]).
  { subst run. unfold handleCellSave, onClickCell, handleCellEdit.
    cbn [editingCell editValue setEditValue setEditingCell rowId column].
    by rewrite (find_unique rows row Hnd Hin). }
  split; [done|]. rewrite Hcalls. unfold fieldOr. split.
  - intros [v Hv]. rewrite Hv. cbn. by rewrite insert_id.
  - intros ->. done.
Qed.

Lemma NoDup_bobAl_ids : NoDup (CsvRow.id <$> Sample.bobAl).
Proof.
  apply (bool_decide_eq_true_1 (NoDup (CsvRow.id <$> Sample.bobAl))).
  by vm_compute.
Qed.

Lemma commit_without_typing_witness :
  let st := initialState Sample.headers in
  let row := Sample.row "r2" 1 "Al" "25" in
  updateCalls (handleCellSave Sample.bobAl (onClickCell row "age" st))
  = [("r2", CsvRow.rowData row)]
  /\ updateCalls (handleCellSave Sample.bobAl (onClickCell row "zip" st))
     = [("r2", <["zip" := ""]> (CsvRow.rowData row))].
Proof.
  intros st row.
  assert (Hin : row ∈ Sample.bobAl) by (right; left).
  destruct (commit_without_typing Sample.bobAl row "age" st NoDup_bobAl_ids Hin)
    as (_ & Hsame & _).
  destruct (commit_without_typing Sample.bobAl row "zip" st NoDup_bobAl_ids Hin)
    as (_ & _ & Hadded).
  split.
  - apply Hsame. exists "25". by vm_compute.
  - apply Hadded. by vm_compute.
Defined.

(** * Further properties of the server operations *)

Section OperationsProperties.

Import Server Operations.

Lemma updateCsvRow_owner rowId newData user db row file :
  CsvRow_table db !! rowId = Some row ->
  CsvFile_table db !! CsvRow.csvFileId row = Some file ->
  CsvFile.userId file = id user ->
  updateCsvRow rowId newData (Some user) db
  = (Js.Normal (withData row newData),
     {| CsvFile_table := CsvFile_table db;
        CsvRow_table := <[rowId := withData row newData]> (CsvRow_table db) |},
     [CsvRow_findUnique rowId; CsvRow_update rowId newData]).
Proof.
  intros Hrow Hfile Howner.
  unfold updateCsvRow, mbind, Op_bind, findUnique_include_csvFile.
  rewrite Hrow. cbn. rewrite Hfile.
  rewrite (proj2 (Z.eqb_eq _ _) Howner). cbn.
  unfold update_rowData. by rewrite Hrow.
Qed.

Lemma updateCsvRow_not_owner rowId newData user db row file :
  CsvRow_table db !! rowId = Some row ->
  CsvFile_table db !! CsvRow.csvFileId row = Some file ->
  CsvFile.userId file <> id user ->
  updateCsvRow rowId newData (Some user) db
  = (Js.Throw "Not authorized to modify this row", db, [CsvRow_findUnique rowId]).
Proof.
  intros Hrow Hfile Howner.
  unfold updateCsvRow, mbind, Op_bind, findUnique_include_csvFile.
  rewrite Hrow. cbn. rewrite Hfile.
  by rewrite (proj2 (Z.eqb_neq _ _) Howner).
Qed.

Lemma updateCsvRow_missing rowId newData user db :
  CsvRow_table db !! rowId = None ->
  updateCsvRow rowId newData (Some user) db
  = (Js.Throw "Row not found", db, [CsvRow_findUnique rowId]).
Proof.
  intros Hrow.
  unfold updateCsvRow, mbind, Op_bind, findUnique_include_csvFile.
  by rewrite Hrow.
Qed.

(** Every call leaves the entities as they were or is the owner's update. *)
Lemma updateCsvRow_cases rowId newData user db :
  (updateCsvRow rowId newData user db).1.2 = db
  \/ exists u row file,
       user = Some u
       /\ CsvRow_table db !! rowId = Some row
       /\ CsvFile_table db !! CsvRow.csvFileId row = Some file
       /\ CsvFile.userId file = id u
       /\ (updateCsvRow rowId newData user db).1.2
          = {| CsvFile_table := CsvFile_table db;
               CsvRow_table := <[rowId := withData row newData]> (CsvRow_table db) |}.
Proof.
  destruct user as [u|]; [|by left].
  destruct (CsvRow_table db !! rowId) as [row|] eqn:Hrow.
  2: { left. by rewrite updateCsvRow_missing. }
  destruct (CsvFile_table db !! CsvRow.csvFileId row) as [file|] eqn:Hfile.
  2: { left. unfold updateCsvRow, mbind, Op_bind, findUnique_include_csvFile.
       rewrite Hrow. cbn. by rewrite Hfile. }
  destruct (Z.eq_dec (CsvFile.userId file) (id u)) as [Ho|Ho].
  - right. exists u, row, file. by rewrite (updateCsvRow_owner _ _ _ _ row file).
  - left. by rewrite (updateCsvRow_not_owner _ _ _ _ row file).
Qed.

(** X15: no call of [updateCsvRow] changes a row of a file the caller does
    not own; without a caller identity it changes no such row either. *)
Theorem updateCsvRow_isolation rowId newData (user : option User) db k row file :
  CsvRow_table db !! k = Some row ->
  CsvFile_table db !! CsvRow.csvFileId row = Some file ->
  (forall u, user = Some u -> CsvFile.userId file <> id u) ->
  CsvRow_table (updateCsvRow rowId newData user db).1.2 !! k = Some row.
Proof.
  intros Hrow Hfile Hother.
  destruct (updateCsvRow_cases rowId newData user db)
    as [->|(u & row0 & file0 & -> & Hrow0 & Hfile0 & Howner & ->)]; [done|].
  cbn. destruct (decide (rowId = k)) as [->|Hne].
  - rewrite Hrow in Hrow0. injection Hrow0 as <-.
    rewrite Hfile in Hfile0. injection Hfile0 as <-.
    by destruct (Hother u eq_refl).
  - by rewrite lookup_insert_ne.
Qed.

(** X16: of two updates of a row by its owner the second decides: it
    returns and stores what it would have without the first.  Repeating
    an update leaves the entities as the first one left them. *)
Theorem updateCsvRow_last_write rowId d1 d2 user db row file :
  CsvRow_table db !! rowId = Some row ->
  CsvFile_table db !! CsvRow.csvFileId row = Some file ->
  CsvFile.userId file = id user ->
  let db1 := (updateCsvRow rowId d1 (Some user) db).1.2 in
  (updateCsvRow rowId d2 (Some user) db1).1
  = (updateCsvRow rowId d2 (Some user) db).1
  /\ (updateCsvRow rowId d1 (Some user) db1).1.2 = db1.
Proof.
  intros Hrow Hfile Howner db1. subst db1.
  rewrite (updateCsvRow_owner rowId d1 user db row file) by done.
  rewrite (updateCsvRow_owner rowId d2 user db row file) by done.
  cbn [fst snd].
  set (db1 := {| CsvFile_table := CsvFile_table db;
                 CsvRow_table := <[rowId:=withData row d1]> (CsvRow_table db) |}).
  assert (Hrow1 : CsvRow_table db1 !! rowId = Some (withData row d1))
    by apply lookup_insert_eq.
  split.
  - rewrite (updateCsvRow_owner rowId d2 user db1 _ file Hrow1 Hfile Howner).
    subst db1. cbn. by rewrite insert_insert_eq.
  - rewrite (updateCsvRow_owner rowId d1 user db1 _ file Hrow1 Hfile Howner).
    subst db1. cbn. by rewrite insert_insert_eq.
Qed.

Lemma elem_of_rowsOfFile db fileId row :
  row ∈ rowsOfFile db fileId
  <-> (exists k, CsvRow_table db !! k = Some row) /\ CsvRow.csvFileId row = fileId.
Proof.
  unfold rowsOfFile. rewrite elem_of_List_filter, list_elem_of_fmap.
  rewrite String.eqb_eq. split.
  - intros [([k r] & -> & Hin) Hf]. split; [|done].
    exists k. by apply elem_of_map_to_list.
  - intros [[k Hk] Hf]. split; [|done]. exists (k, row). split; [done|].
    by apply elem_of_map_to_list.
Qed.

(** X17: [getCsvFile] throws "Not authorized" without a caller identity,
    "File not found" for a file that is not stored, "Not authorized to
    access this file" for a file of another user; for a file of the
    caller it returns the file with the stored rows whose [csvFileId] is
    the file's identifier, those and no others. *)
Theorem getCsvFile_spec fileId (db : Entities) :
  getCsvFile fileId None db = Js.Throw "Not authorized"
  /\ (forall user, CsvFile_table db !! fileId = None ->
        getCsvFile fileId (Some user) db = Js.Throw "File not found")
  /\ (forall user file,
        CsvFile_table db !! fileId = Some file ->
        CsvFile.userId file <> id user ->
        getCsvFile fileId (Some user) db
        = Js.Throw "Not authorized to access this file")
  /\ (forall user file,
        CsvFile_table db !! fileId = Some file ->
        CsvFile.userId file = id user ->
        exists rows,
          getCsvFile fileId (Some user) db = Js.Normal (file, rows)
          /\ forall row,
               row ∈ rows
               <-> (exists k, CsvRow_table db !! k = Some row)
                   /\ CsvRow.csvFileId row = fileId).
Proof.
  split; [done|]. split; [|split].
  - intros user Hfile. unfold getCsvFile. by rewrite Hfile.
  - intros user file Hfile Howner. unfold getCsvFile. rewrite Hfile.
    by rewrite (proj2 (Z.eqb_neq _ _) Howner).
  - intros user file Hfile Howner. unfold getCsvFile. rewrite Hfile.
    rewrite (proj2 (Z.eqb_eq _ _) Howner). cbn. eexists. split; [done|].
    intros row. apply elem_of_rowsOfFile.
Qed.

Lemma rowsOfFile_ids_NoDup db fileId :
  wellFormed db -> NoDup (CsvRow.id <$> rowsOfFile db fileId).
Proof.
  intros [_ Hrows]. unfold rowsOfFile.
  assert (Hids : CsvRow.id <$> (map_to_list (CsvRow_table db)).*2
                 = (map_to_list (CsvRow_table db)).*1).
  { apply list_eq. intros i. rewrite !list_lookup_fmap.
    destruct (map_to_list (CsvRow_table db) !! i) as [[k r]|] eqn:Hi; [|done].
    cbn. f_equal. apply list_elem_of_lookup_2, elem_of_map_to_list in Hi.
    by apply Hrows in Hi as [-> _]. }
  pose proof (NoDup_fst_map_to_list (CsvRow_table db)) as Hnd.
  rewrite <- Hids in Hnd. clear Hids.
  induction ((map_to_list (CsvRow_table db)).*2) as [|r l IH]; [constructor|].
  cbn in *. apply NoDup_cons in Hnd as [Hr Hnd].
  destruct (String.eqb (CsvRow.csvFileId r) fileId); [|by apply IH].
  cbn. apply NoDup_cons. split; [|by apply IH].
  intros Hin. apply Hr. apply list_elem_of_fmap in Hin as (r' & -> & Hin).
  apply list_elem_of_fmap. exists r'. split; [done|].
  by apply elem_of_List_filter in Hin as [Hin _].
Qed.

(** X18: the viewer and the server together.  For a file the caller
    fetched with [getCsvFile], committing an edit of one of its rows
    sends one update, the server accepts it, the edit ends, and a new
    fetch returns the same file with that row's data replaced by the
    overlaid field map and all other rows as they were. *)
Theorem commit_end_to_end (db : Entities) (user : User) (fileId : string)
  (file : CsvFile.t) (rows : list CsvRow.t) (st : ViewState)
  (cell : EditingCell) (row : CsvRow.t) :
  wellFormed db ->
  getCsvFile fileId (Some user) db = Js.Normal (file, rows) ->
  editingCell st = Some cell ->
  row ∈ rows ->
  CsvRow.id row = rowId cell ->
  let newData := <[column cell := editValue st]> (CsvRow.rowData row) in
  let run := handleCellSave rows st in
  updateCalls run = [(rowId cell, newData)]
  /\ exists db' rows',
       callUpdateCsvRow (Some user) db (rowId cell) newData = (db', Js.Fulfilled)
       /\ editingCell (stateAfterSettle run Js.Fulfilled st) = None
       /\ wellFormed db'
       /\ getCsvFile fileId (Some user) db' = Js.Normal (file, rows')
       /\ forall r, r ∈ rows'
                    <-> r = withData row newData
                        \/ (r ∈ rows /\ CsvRow.id r <> rowId cell).
Proof.
  intros Hwf Hget Hcell Hin Hid newData run.
  (* the fetch succeeded: the file is the caller's and [rows] are its rows *)
  unfold getCsvFile in Hget.
  destruct (CsvFile_table db !! fileId) as [file0|] eqn:Hfile; [|done].
  destruct (Z.eqb_spec (CsvFile.userId file0) (id user)) as [Howner|]; [|done].
  cbn in Hget. injection Hget as -> <-.
  apply elem_of_rowsOfFile in Hin as Hstored.
  destruct Hstored as [[k Hk] Hrowfile].
  destruct Hwf as [Hfiles Hrows].
  destruct (Hrows k row Hk) as [Hkid _].
  assert (k = rowId cell) as -> by congruence.
  split.
  { subst run. unfold handleCellSave. rewrite Hcell, <- Hid.
    rewrite (find_unique _ row (rowsOfFile_ids_NoDup db fileId (conj Hfiles Hrows)) Hin).
    cbn. by rewrite Hid. }
  eexists _, _. split.
  { unfold callUpdateCsvRow.
    rewrite (updateCsvRow_owner _ _ user db row file) by (done || congruence).
    done. }
  split.
  { subst run. unfold handleCellSave. rewrite Hcell, <- Hid.
    by rewrite (find_unique _ row (rowsOfFile_ids_NoDup db fileId (conj Hfiles Hrows)) Hin). }
  split.
  { split; cbn; [done|]. intros k' r Hr.
    destruct (decide (rowId cell = k')) as [<-|Hne].
    - rewrite lookup_insert_eq in Hr. injection Hr as <-. cbn.
      split; [done|]. by apply (Hrows _ _ Hk).
    - rewrite lookup_insert_ne in Hr by done. by apply Hrows. }
  split.
  { unfold getCsvFile. cbn. rewrite Hfile.
    by rewrite (proj2 (Z.eqb_eq _ _) Howner). }
  intros r. rewrite !elem_of_rowsOfFile. cbn. split.
  - intros [[k' Hk'] Hf].
    destruct (decide (rowId cell = k')) as [<-|Hne].
    + rewrite lookup_insert_eq in Hk'. left. congruence.
    + rewrite lookup_insert_ne in Hk' by done. right.
      split; [split; [eauto|done]|].
      destruct (Hrows _ _ Hk') as [-> _]. congruence.
  - intros [->|[[[k' Hk'] Hf] Hne]].
    + split; [|done]. exists (rowId cell). by rewrite lookup_insert_eq.
    + split; [|done]. exists k'. rewrite lookup_insert_ne; [done|].
      destruct (Hrows _ _ Hk') as [<- _]. congruence.
Qed.
(** X14: whoever calls it and whatever it is given, [updateCsvRow] changes
    no file and no row but the addressed one, and of that row nothing but
    the data: identifier, file and row index stay. *)
Theorem updateCsvRow_frame (rowId : string) (newData : gmap string string)
  (user : option User) (db : Entities) :
  let db' := (updateCsvRow rowId newData user db).1.2 in
  CsvFile_table db' = CsvFile_table db
  /\ (forall k, k <> rowId -> CsvRow_table db' !! k = CsvRow_table db !! k)
  /\ (forall row', CsvRow_table db' !! rowId = Some row' ->
        exists row, CsvRow_table db !! rowId = Some row
                    /\ CsvRow.id row' = CsvRow.id row
                    /\ CsvRow.csvFileId row' = CsvRow.csvFileId row
                    /\ CsvRow.rowIndex row' = CsvRow.rowIndex row
                    /\ (CsvRow.rowData row' = CsvRow.rowData row
                        \/ CsvRow.rowData row' = newData))
  /\ (CsvRow_table db !! rowId = None -> db' = db).
Proof.
  unfold updateCsvRow, mbind, Op_bind, findUnique_include_csvFile, update_rowData.
  destruct user as [user|]; cbn.
  2: { split; [done|]. split; [done|]. split; [|done]. intros row' H. exists row'. tauto. }
  destruct (CsvRow_table db !! rowId) as [row|] eqn:Hrow; cbn.
  2: { split; [done|]. split; [done|]. split; [|done]. intros row' H. congruence. }
  destruct (CsvFile_table db !! CsvRow.csvFileId row) as [file|]; cbn.
  2: { split; [done|]. split; [done|]. split; [|done]. intros row' H. exists row'. split; [congruence|]. tauto. }
  destruct (CsvFile.userId file =? id user); cbn.
  - rewrite Hrow. cbn. split; [done|]. split.
    + intros k Hk. by rewrite lookup_insert_ne.
    + split; [|done]. intros row' H. rewrite lookup_insert_eq in H.
      injection H as <-. exists row. cbn. tauto.
  - split; [done|]. split; [done|]. split; [|done]. intros row' H. exists row'. split; [congruence|]. tauto.
Qed.
Lemma deleteCsvFile_owner fileId user db file :
  CsvFile_table db !! fileId = Some file ->
  CsvFile.userId file = id user ->
  deleteCsvFile fileId (Some user) db
  = (Js.Normal file,
     {| CsvFile_table := delete fileId (CsvFile_table db);
        CsvRow_table :=
          filter (fun kr => CsvRow.csvFileId kr.2 <> fileId) (CsvRow_table db) |}).
Proof.
  intros Hfile Howner. unfold deleteCsvFile. rewrite Hfile.
  rewrite (proj2 (Z.eqb_eq _ _) Howner). cbn.
  unfold delete_file, deleteMany_rows. cbn. by rewrite Hfile.
Qed.

Lemma deleteCsvFile_cases fileId user db :
  (deleteCsvFile fileId user db).2 = db
  \/ exists u file,
       user = Some u
       /\ CsvFile_table db !! fileId = Some file
       /\ CsvFile.userId file = id u
       /\ deleteCsvFile fileId user db
          = (Js.Normal file,
             {| CsvFile_table := delete fileId (CsvFile_table db);
                CsvRow_table :=
                  filter (fun kr => CsvRow.csvFileId kr.2 <> fileId)
                    (CsvRow_table db) |}).
Proof.
  destruct user as [u|]; [|by left]. unfold deleteCsvFile.
  destruct (CsvFile_table db !! fileId) as [file|] eqn:Hfile; [|by left].
  destruct (Z.eqb_spec (CsvFile.userId file) (id u)) as [Ho|Ho]; [|by left].
  right. exists u, file. split; [done|]. split; [done|]. split; [done|].
  cbn. unfold delete_file, deleteMany_rows. cbn. by rewrite Hfile.
Qed.

(** X19: [deleteCsvFile] throws "Not authorized", "File not found" or "Not
    authorized to delete this file" as [getCsvFile] does for access, and
    then leaves the entities as they are; for a file of the caller it
    returns the file and removes it together with the rows that belong to
    it, and nothing else. *)
Theorem deleteCsvFile_spec fileId (db : Entities) :
  deleteCsvFile fileId None db = (Js.Throw "Not authorized", db)
  /\ (forall user, CsvFile_table db !! fileId = None ->
        deleteCsvFile fileId (Some user) db = (Js.Throw "File not found", db))
  /\ (forall user file,
        CsvFile_table db !! fileId = Some file ->
        CsvFile.userId file <> id user ->
        deleteCsvFile fileId (Some user) db
        = (Js.Throw "Not authorized to delete this file", db))
  /\ (forall user file,
        CsvFile_table db !! fileId = Some file ->
        CsvFile.userId file = id user ->
        exists db',
          deleteCsvFile fileId (Some user) db = (Js.Normal file, db')
          /\ CsvFile_table db' !! fileId = None
          /\ (forall f, f <> fileId ->
                CsvFile_table db' !! f = CsvFile_table db !! f)
          /\ (forall k row,
                CsvRow_table db' !! k = Some row
                <-> CsvRow_table db !! k = Some row
                    /\ CsvRow.csvFileId row <> fileId)).
Proof.
  split; [done|]. split; [|split].
  - intros user Hfile. unfold deleteCsvFile. by rewrite Hfile.
  - intros user file Hfile Howner. unfold deleteCsvFile. rewrite Hfile.
    by rewrite (proj2 (Z.eqb_neq _ _) Howner).
  - intros user file Hfile Howner. eexists.
    split; [by apply deleteCsvFile_owner|]. cbn.
    split; [apply lookup_delete_eq|].
    split; [intros f Hf; by apply lookup_delete_ne|].
    intros k row. by rewrite map_lookup_filter_Some.
Qed.

(** X20: after its owner has deleted a file, the file has no rows left,
    fetching it or deleting it again throws "File not found", and an
    update of any row it had throws "Row not found". *)
Theorem deleted_file_is_gone fileId user db file :
  CsvFile_table db !! fileId = Some file ->
  CsvFile.userId file = id user ->
  let db' := (deleteCsvFile fileId (Some user) db).2 in
  rowsOfFile db' fileId = []
  /\ (forall user', getCsvFile fileId (Some user') db' = Js.Throw "File not found")
  /\ (forall user' k row newData,
        CsvRow_table db !! k = Some row ->
        CsvRow.csvFileId row = fileId ->
        (updateCsvRow k newData (Some user') db').1.1 = Js.Throw "Row not found")
  /\ (forall user',
        deleteCsvFile fileId (Some user') db' = (Js.Throw "File not found", db')).
Proof.
  intros Hfile Howner db'. subst db'.
  rewrite (deleteCsvFile_owner fileId user db file Hfile Howner). cbn [snd].
  set (db' := {| CsvFile_table := _; CsvRow_table := _ |}).
  assert (Hgone : CsvFile_table db' !! fileId = None) by apply lookup_delete_eq.
  split; [|split; [|split]].
  - destruct (rowsOfFile db' fileId) as [|r l] eqn:Hl; [done|].
    assert (Hr : r ∈ rowsOfFile db' fileId) by (rewrite Hl; left).
    apply elem_of_rowsOfFile in Hr as [[k Hk] Hf].
    apply map_lookup_filter_Some in Hk as [_ Hk]. by destruct Hk.
  - intros user'. unfold getCsvFile. by rewrite Hgone.
  - intros user' k row newData Hk Hf.
    rewrite updateCsvRow_missing; [done|].
    apply map_lookup_filter_None. right. intros r Hr. cbn. intros Hne.
    apply Hne. congruence.
  - intros user'. unfold deleteCsvFile. by rewrite Hgone.
Qed.

(** X21: [updateCsvRow] and [deleteCsvFile] keep the entities well
    formed: records stay stored under their identifiers and no row is
    left without its file, which is what deleting the rows before the
    file is for. *)
Theorem wellFormed_preserved (db : Entities) :
  wellFormed db ->
  (forall rowId newData user,
     wellFormed (updateCsvRow rowId newData user db).1.2)
  /\ (forall fileId user, wellFormed (deleteCsvFile fileId user db).2).
Proof.
  intros [Hfiles Hrows]. split.
  - intros rowId newData user.
    destruct (updateCsvRow_cases rowId newData user db)
      as [->|(u & row & file & -> & Hrow & Hfile & Howner & ->)]; [done|].
    split; cbn; [done|]. intros k r Hr.
    destruct (decide (rowId = k)) as [<-|Hne].
    + rewrite lookup_insert_eq in Hr. injection Hr as <-. cbn.
      by apply (Hrows _ _ Hrow).
    + rewrite lookup_insert_ne in Hr by done. by apply Hrows.
  - intros fileId user.
    destruct (deleteCsvFile_cases fileId user db)
      as [->|(u & file & -> & Hfile & Howner & ->)]; [done|].
    split; cbn.
    + intros k f Hf. apply lookup_delete_Some in Hf as [_ Hf]. by apply Hfiles.
    + intros k r Hr. apply map_lookup_filter_Some in Hr as [Hr Hne]. cbn in Hne.
      destruct (Hrows _ _ Hr) as [Hid [f Hf]]. split; [done|].
      exists f. by rewrite lookup_delete_ne.
Qed.
End OperationsProperties.

(** The sample entities are well formed. *)
Lemma wellFormed_map_Forall (db : Server.Entities) :
  map_Forall (fun k file => CsvFile.id file = k) (Server.CsvFile_table db) ->
  map_Forall
    (fun k row =>
       CsvRow.id row = k
       /\ is_Some (Server.CsvFile_table db !! CsvRow.csvFileId row))
    (Server.CsvRow_table db) ->
  Operations.wellFormed db.
Proof. intros Hfiles Hrows. split; [exact Hfiles | exact Hrows]. Qed.

Lemma wellFormed_sample : Operations.wellFormed Sample.entities.
Proof.
  apply wellFormed_map_Forall.
  - apply (bool_decide_eq_true_1 (map_Forall _ _)). by vm_compute.
  - apply (bool_decide_eq_true_1 (map_Forall _ _)). by vm_compute.
Qed.

Lemma updateCsvRow_isolation_witness :
  Server.CsvRow_table
    (Server.updateCsvRow "r2" ∅ (Some (Server.mkUser 8)) Sample.entities).1.2
    !! "r2"
  = Some (Sample.row "r2" 1 "Al" "25").
Proof.
  apply (updateCsvRow_isolation "r2" ∅ (Some (Server.mkUser 8)) Sample.entities
           "r2" (Sample.row "r2" 1 "Al" "25") Sample.file eq_refl eq_refl).
  intros u [= <-]. cbn. lia.
Defined.

Lemma updateCsvRow_last_write_witness :
  let d1 : gmap string string := {["name" := "Al"]} in
  let d2 : gmap string string := {["name" := "Alan"]} in
  let db1 := (Server.updateCsvRow "r2" d1 (Some (Server.mkUser 7)) Sample.entities).1.2 in
  (Server.updateCsvRow "r2" d2 (Some (Server.mkUser 7)) db1).1
  = (Server.updateCsvRow "r2" d2 (Some (Server.mkUser 7)) Sample.entities).1.
Proof.
  intros d1 d2 db1.
  apply (updateCsvRow_last_write "r2" d1 d2 (Server.mkUser 7) Sample.entities
           (Sample.row "r2" 1 "Al" "25") Sample.file eq_refl eq_refl eq_refl).
Defined.

Lemma getCsvFile_spec_witness :
  Operations.getCsvFile "f9" (Some (Server.mkUser 7)) Sample.entities
  = Js.Throw "File not found"
  /\ Operations.getCsvFile "f1" (Some (Server.mkUser 8)) Sample.entities
     = Js.Throw "Not authorized to access this file"
  /\ exists rows,
       Operations.getCsvFile "f1" (Some (Server.mkUser 7)) Sample.entities
       = Js.Normal (Sample.file, rows)
       /\ Sample.row "r2" 1 "Al" "25" ∈ rows.
Proof.
  destruct (getCsvFile_spec "f9" Sample.entities) as (_ & Hmissing & _ & _).
  destruct (getCsvFile_spec "f1" Sample.entities) as (_ & _ & Hother & Hown).
  split; [by apply Hmissing|].
  split; [apply (Hother (Server.mkUser 8) Sample.file eq_refl); cbn; lia|].
  destruct (Hown (Server.mkUser 7) Sample.file eq_refl eq_refl)
    as (rows & Hget & Hrows).
  exists rows. split; [exact Hget|]. apply Hrows. split; [|done].
  by exists "r2".
Defined.

Lemma commit_end_to_end_witness :
  let st := setEditValue "26"
              (handleCellEdit "r2" "age" "25" (initialState Sample.headers)) in
  let rows := Operations.rowsOfFile Sample.entities "f1" in
  let newData : gmap string string := <["age" := "26"]> (CsvRow.rowData (Sample.row "r2" 1 "Al" "25")) in
  updateCalls (handleCellSave rows st) = [("r2", newData)]
  /\ exists db' rows',
       Operations.callUpdateCsvRow (Some (Server.mkUser 7)) Sample.entities "r2" newData
       = (db', Js.Fulfilled)
       /\ Operations.getCsvFile "f1" (Some (Server.mkUser 7)) db'
          = Js.Normal (Sample.file, rows')
       /\ Operations.withData (Sample.row "r2" 1 "Al" "25") newData ∈ rows'.
Proof.
  intros st rows newData.
  assert (Hin : Sample.row "r2" 1 "Al" "25" ∈ rows).
  { apply elem_of_rowsOfFile. split; [|done]. by exists "r2". }
  destruct (commit_end_to_end Sample.entities (Server.mkUser 7) "f1" Sample.file
              rows st {| rowId := "r2"; column := "age" |}
              (Sample.row "r2" 1 "Al" "25")
              wellFormed_sample eq_refl eq_refl Hin eq_refl)
    as (Hcalls & db' & rows' & Hupdate & _ & _ & Hget & Hrows).
  split; [exact Hcalls|].
  exists db', rows'. split; [exact Hupdate|]. split; [exact Hget|].
  apply Hrows. by left.
Defined.

Lemma deleteCsvFile_spec_witness :
  Operations.deleteCsvFile "f1" (Some (Server.mkUser 8)) Sample.entities
  = (Js.Throw "Not authorized to delete this file", Sample.entities)
  /\ exists db',
       Operations.deleteCsvFile "f1" (Some (Server.mkUser 7)) Sample.entities
       = (Js.Normal Sample.file, db')
       /\ Server.CsvFile_table db' !! "f1" = None
       /\ Server.CsvRow_table db' !! "r2" = None.
Proof.
  destruct (deleteCsvFile_spec "f1" Sample.entities) as (_ & _ & Hother & Hown).
  split; [apply (Hother (Server.mkUser 8) Sample.file eq_refl); cbn; lia|].
  destruct (Hown (Server.mkUser 7) Sample.file eq_refl eq_refl)
    as (db' & Hdel & Hfile & _ & Hrows).
  exists db'. split; [exact Hdel|]. split; [exact Hfile|].
  destruct (Server.CsvRow_table db' !! "r2") as [row|] eqn:Hrow; [|done].
  apply Hrows in Hrow as [Hstored Hne]. injection Hstored as <-. by destruct Hne.
Defined.

Lemma deleted_file_is_gone_witness :
  let db' := (Operations.deleteCsvFile "f1" (Some (Server.mkUser 7)) Sample.entities).2 in
  Operations.rowsOfFile db' "f1" = []
  /\ (Server.updateCsvRow "r2" ∅ (Some (Server.mkUser 7)) db').1.1
     = Js.Throw "Row not found".
Proof.
  intros db'.
  destruct (deleted_file_is_gone "f1" (Server.mkUser 7) Sample.entities Sample.file
              eq_refl eq_refl) as (Hrows & _ & Hupdate & _).
  split; [exact Hrows|].
  exact (Hupdate (Server.mkUser 7) "r2" (Sample.row "r2" 1 "Al" "25") ∅ eq_refl eq_refl).
Defined.

Lemma wellFormed_preserved_witness :
  Operations.wellFormed
    (Operations.deleteCsvFile "f1" (Some (Server.mkUser 7)) Sample.entities).2
  /\ Operations.wellFormed
       (Server.updateCsvRow "r2" ∅ (Some (Server.mkUser 7)) Sample.entities).1.2.
Proof.
  destruct (wellFormed_preserved Sample.entities wellFormed_sample)
    as [Hupdate Hdelete].
  split; [apply Hdelete | apply Hupdate].
Defined.

(** * Properties of the upload box and the file list *)

Section UploadProperties.
Import CsvFileUpload.
Variable uploadCsvFileFn : string -> string -> Outcome.

Lemma handleFile_catch_reports error st ups :
  let run := handleFile_catch error st ups in
  isDragging (state run) = isDragging st
  /\ uploads run = ups
  /\ exists message,
       uploadError (state run) = Some message
       /\ effects run = [toast_error message].
Proof.
  unfold handleFile_catch.
  destruct error as [message|]; [destruct (String.eqb message "Not authorized")|];
    cbn; eauto.
Qed.

Lemma handleFile_isDragging (file : File) (st : State) :
  isDragging (state (handleFile uploadCsvFileFn file st)) = isDragging st.
Proof.
  unfold handleFile.
  destruct (negb (Js.includes (type file) "csv")
            && negb (endsWith (name file) ".csv")); [done|].
  destruct (text file) as [content|error].
  - destruct (uploadCsvFileFn (name file) content) as [|error]; [done|].
    by destruct (handleFile_catch_reports error st [(name file, content)])
      as [-> _].
  - by destruct (handleFile_catch_reports error st []) as [-> _].
Qed.

(** X22: whatever the file and however the upload settles, [handleFile]
    shows one toast and the error line agrees with it: either the success
    toast with the error line cleared, and then the file was read and
    its upload resolved, or an error toast with the same message on the
    error line.  The upload action is called at most once, with the
    file's name and content, and not at all for a file whose type does
    not contain "csv" and whose name does not end in ".csv". *)
Theorem handleFile_reports (file : File) (st : State) :
  let run := handleFile uploadCsvFileFn file st in
  isDragging (state run) = isDragging st
  /\ (uploads run = []
      \/ exists content,
           text file = inl content /\ uploads run = [(name file, content)])
  /\ (Js.includes (type file) "csv" = false ->
      endsWith (name file) ".csv" = false ->
      uploads run = []
      /\ uploadError (state run) = Some "Please upload a CSV file")
  /\ ((uploadError (state run) = None
       /\ effects run = [toast_success "File uploaded successfully"]
       /\ exists content,
            text file = inl content
            /\ uploadCsvFileFn (name file) content = Resolved)
      \/ (exists message,
            uploadError (state run) = Some message
            /\ effects run = [toast_error message])).
Proof.
  unfold handleFile.
  destruct (Js.includes (type file) "csv") eqn:Htype;
    destruct (endsWith (name file) ".csv") eqn:Hname; cbn [negb andb].
  4: { cbn. split; [done|]. split; [by left|]. split; [done|]. right. eauto. }
  all: destruct (text file) as [content|error] eqn:Htext.
  all: try (destruct (handleFile_catch_reports error st []) as (Hd & Hu & Hm);
            split; [done|]; split; [by left|]; split; [done|]; by right).
  all: destruct (uploadCsvFileFn (name file) content) as [|error] eqn:Hup.
  all: try (destruct (handleFile_catch_reports error st [(name file, content)])
              as (Hd & Hu & Hm);
            split; [done|]; split; [right; eauto|]; split; [done|]; by right).
  all: cbn; split; [done|]; split; [right; eauto|]; split; [done|]; left; eauto.
Qed.

Lemma droppedCsv_accepted (file : File) :
  droppedCsv file = true ->
  negb (Js.includes (type file) "csv") && negb (endsWith (name file) ".csv")
  = false.
Proof.
  unfold droppedCsv. intros H. apply orb_true_iff in H as [H|H].
  - apply String.eqb_eq in H. rewrite H. reflexivity.
  - rewrite H. cbn. apply andb_false_r.
Qed.

Lemma find_first {A} (f : A -> bool) (pre post : list A) (x : A) :
  Forall (fun y => f y = false) pre -> f x = true ->
  List.find f (pre ++ x :: post) = Some x.
Proof.
  induction 1 as [|y pre Hy _ IH]; intros Hx; cbn.
  - by rewrite Hx.
  - rewrite Hy. by apply IH.
Qed.

Lemma find_none_Forall {A} (f : A -> bool) (l : list A) :
  Forall (fun y => f y = false) l -> List.find f l = None.
Proof. induction 1 as [|y l Hy _ IH]; cbn; [done|]. by rewrite Hy. Qed.

(** X23: a drop ends the dragging state.  Of the dropped files the first
    with the type "text/csv" or a name ending in ".csv" is uploaded (such
    a file always passes the check of [handleFile]) and the others are
    ignored; when no file is of that kind nothing is uploaded and the
    error line asks for a CSV file. *)
Theorem handleDrop_uploads_first_csv (files : list File) (st : State) :
  isDragging (state (handleDrop uploadCsvFileFn files st)) = false
  /\ (Forall (fun file => droppedCsv file = false) files ->
      handleDrop uploadCsvFileFn files st
      = {| state := {| isDragging := false;
                       uploadError := Some "Please upload a CSV file" |};
           effects := [toast_error "Please upload a CSV file"];
           uploads := [] |})
  /\ (forall pre file post content,
        files = pre ++ file :: post ->
        Forall (fun file => droppedCsv file = false) pre ->
        droppedCsv file = true ->
        text file = inl content ->
        uploads (handleDrop uploadCsvFileFn files st) = [(name file, content)]
        /\ (uploadCsvFileFn (name file) content = Resolved ->
            uploadError (state (handleDrop uploadCsvFileFn files st)) = None)).
Proof.
  split; [|split].
  - unfold handleDrop. destruct (List.find droppedCsv files) as [file|]; [|done].
    by rewrite handleFile_isDragging.
  - intros Hnone. unfold handleDrop. by rewrite find_none_Forall.
  - intros pre file post content -> Hpre Hfile Htext. unfold handleDrop.
    rewrite (find_first _ pre post file Hpre Hfile).
    unfold handleFile. rewrite (droppedCsv_accepted file Hfile), Htext.
    destruct (uploadCsvFileFn (name file) content) as [|error]; [done|].
    split; [|done].
    by destruct (handleFile_catch_reports error
                   {| isDragging := false; uploadError := None |}
                   [(name file, content)]) as (_ & -> & _).
Qed.

(** X24: the drop zone is stricter than the file input: a file whose type
    contains "csv" without being "text/csv", and whose name does not end
    in ".csv", is uploaded when chosen through the input and refused when
    dropped. *)
Theorem drop_stricter_than_browse (file : File) (content : string) (st : State) :
  Js.includes (type file) "csv" = true ->
  type file <> "text/csv" ->
  endsWith (name file) ".csv" = false ->
  text file = inl content ->
  uploads (handleFileInput uploadCsvFileFn (Some [file]) st)
  = [(name file, content)]
  /\ uploads (handleDrop uploadCsvFileFn [file] st) = []
  /\ uploadError (state (handleDrop uploadCsvFileFn [file] st))
     = Some "Please upload a CSV file".
Proof.
  intros Htype Hnot Hname Htext. split.
  - unfold handleFileInput, handleFile. rewrite Htype, Htext. cbn.
    destruct (uploadCsvFileFn (name file) content) as [|error]; [done|].
    by destruct (handleFile_catch_reports error st [(name file, content)])
      as (_ & -> & _).
  - unfold handleDrop. cbn. unfold droppedCsv.
    rewrite (proj2 (String.eqb_neq _ _) Hnot), Hname. done.
Qed.

End UploadProperties.

(** X25: confirming a deletion always closes the dialog and forgets the
    file.  Wired to [handleDeleteFile] of the page, which reports and
    swallows a failure itself, it calls the delete action once and then
    always adds its own success toast: two success toasts for a deletion
    that worked, and for one that failed the error toast followed by a
    success toast. *)
Theorem handleDeleteConfirm_reports (deleteCsvFile : string -> Outcome)
  (st : CsvFileList.State) :
  (forall onDelete,
     (CsvFileList.handleDeleteConfirm onDelete st).1.1
     = {| CsvFileList.deleteDialogOpen := false;
          CsvFileList.fileToDelete := None |})
  /\ (CsvFileList.fileToDelete st = None ->
      forall onDelete,
        (CsvFileList.handleDeleteConfirm onDelete st).2 = []
        /\ (CsvFileList.handleDeleteConfirm onDelete st).1.2 = [])
  /\ (forall file,
        CsvFileList.fileToDelete st = Some file ->
        let run := CsvFileList.handleDeleteConfirm
                     (Some (CsvManager.handleDeleteFile deleteCsvFile)) st in
        run.2 = [CsvFile.id file]
        /\ (deleteCsvFile (CsvFile.id file) = Resolved ->
            run.1.2 = [toast_success "File deleted successfully";
                       toast_success "File deleted successfully"])
        /\ (forall error,
              deleteCsvFile (CsvFile.id file) = RejectedWith error ->
              run.1.2 = [toast_error "Failed to delete file";
                         console_error "Error deleting file:";
                         toast_success "File deleted successfully"])).
Proof.
  split; [|split].
  - intros onDelete. unfold CsvFileList.handleDeleteConfirm.
    destruct (CsvFileList.fileToDelete st) as [file|], onDelete as [onDelete|];
      try done.
    by destruct (onDelete (CsvFile.id file)) as [effects [|error]].
  - intros Hnone onDelete. unfold CsvFileList.handleDeleteConfirm.
    by rewrite Hnone.
  - intros file Hfile run. subst run.
    unfold CsvFileList.handleDeleteConfirm, CsvManager.handleDeleteFile.
    rewrite Hfile.
    destruct (deleteCsvFile (CsvFile.id file)) as [|error]; cbn.
    + split; [done|]. split; [done|]. by intros error.
    + split; [done|]. split; [done|]. by intros error' _.
Qed.

Lemma handleFile_reports_witness :
  let run := CsvFileUpload.handleFile (fun _ _ => Resolved)
               (CsvFileUpload.mkFile "notes.txt" "text/plain" (inl "hello"))
               (CsvFileUpload.mkState false None) in
  CsvFileUpload.uploads run = []
  /\ CsvFileUpload.uploadError (CsvFileUpload.state run)
     = Some "Please upload a CSV file".
Proof.
  intros run.
  apply (handleFile_reports (fun _ _ => Resolved)
           (CsvFileUpload.mkFile "notes.txt" "text/plain" (inl "hello"))
           (CsvFileUpload.mkState false None));
    reflexivity.
Defined.

Lemma handleDrop_uploads_first_csv_witness :
  let files := [CsvFileUpload.mkFile "notes.txt" "text/plain" (inl "hello");
                CsvFileUpload.mkFile "people.csv" "" (inl "name,age");
                CsvFileUpload.mkFile "more.csv" "text/csv" (inl "a,b")] in
  let run := CsvFileUpload.handleDrop (fun _ _ => Resolved) files
               (CsvFileUpload.mkState true None) in
  CsvFileUpload.uploads run = [("people.csv", "name,age")]
  /\ CsvFileUpload.uploadError (CsvFileUpload.state run) = None.
Proof.
  intros files run.
  destruct (handleDrop_uploads_first_csv (fun _ _ => Resolved) files
              (CsvFileUpload.mkState true None)) as (_ & _ & Hfirst).
  destruct (Hfirst [CsvFileUpload.mkFile "notes.txt" "text/plain" (inl "hello")]
              (CsvFileUpload.mkFile "people.csv" "" (inl "name,age"))
              [CsvFileUpload.mkFile "more.csv" "text/csv" (inl "a,b")]
              "name,age" eq_refl) as [Huploads Hclear];
    [by repeat constructor | reflexivity | reflexivity |].
  split; [exact Huploads | by apply Hclear].
Defined.

Lemma drop_stricter_than_browse_witness :
  let file := CsvFileUpload.mkFile "export.txt" "application/csv" (inl "a,b") in
  let st := CsvFileUpload.mkState false None in
  CsvFileUpload.uploads
    (CsvFileUpload.handleFileInput (fun _ _ => Resolved) (Some [file]) st)
  = [("export.txt", "a,b")]
  /\ CsvFileUpload.uploads
       (CsvFileUpload.handleDrop (fun _ _ => Resolved) [file] st) = [].
Proof.
  intros file st.
  destruct (drop_stricter_than_browse (fun _ _ => Resolved) file "a,b" st)
    as (Hinput & Hdrop & _); [reflexivity | discriminate | reflexivity
                             | reflexivity |].
  by split.
Defined.

Lemma handleDeleteConfirm_reports_witness :
  let st := CsvFileList.handleDeleteClick Sample.file
              (CsvFileList.mkState false None) in
  (CsvFileList.handleDeleteConfirm
     (Some (CsvManager.handleDeleteFile
              (fun _ => RejectedWith (AnError "File not found")))) st).1.2
  = [toast_error "Failed to delete file";
     console_error "Error deleting file:";
     toast_success "File deleted successfully"].
Proof.
  intros st.
  destruct (handleDeleteConfirm_reports
              (fun _ => RejectedWith (AnError "File not found")) st)
    as (_ & _ & Hwired).
  destruct (Hwired Sample.file eq_refl) as (_ & _ & Hfailed).
  exact (Hfailed (AnError "File not found") eq_refl).
Defined.

(** * Properties of the upload operation *)

Section UploadOperationProperties.

Import Server Operations UploadOperation.

Variable parse : string -> list (gmap string string) + Thrown.
Variable Object_keys : gmap string string -> list string.
Variable newFileId : string.
Variable newRowId : nat -> string.

(** X26: [uploadCsvFile] stores nothing when it throws: "Not authorized"
    without a caller identity, before the content is parsed; the parser's
    own error when it throws one, "Invalid CSV file format" when it throws
    something that is no error; "CSV file is empty" when there is no
    record; "CSV file has no columns" when the first record has no key. *)
Theorem uploadCsvFile_rejects (fileName fileContent : string) (db : Entities) :
  uploadCsvFile parse Object_keys newFileId newRowId fileName fileContent None db
  = (Js.Throw "Not authorized", db)
  /\ (forall user,
        (forall message,
           parse fileContent = inr (AnError message) ->
           uploadCsvFile parse Object_keys newFileId newRowId
             fileName fileContent (Some user) db
           = (Js.Throw message, db))
        /\ (parse fileContent = inr NotAnError ->
            uploadCsvFile parse Object_keys newFileId newRowId
              fileName fileContent (Some user) db
            = (Js.Throw "Invalid CSV file format", db))
        /\ (parse fileContent = inl [] ->
            uploadCsvFile parse Object_keys newFileId newRowId
              fileName fileContent (Some user) db
            = (Js.Throw "CSV file is empty", db))
        /\ (forall record records,
              parse fileContent = inl (record :: records) ->
              Object_keys record = [] ->
              uploadCsvFile parse Object_keys newFileId newRowId
                fileName fileContent (Some user) db
              = (Js.Throw "CSV file has no columns", db))).
Proof.
  split; [done|]. intros user. unfold uploadCsvFile.
  split; [|split; [|split]].
  - by intros message ->.
  - by intros ->.
  - by intros ->.
  - intros record records -> Hkeys.
    change (default ∅ (head (record :: records))) with record.
    by rewrite Hkeys.
Qed.

Lemma createdRows_ids (records : list (gmap string string)) :
  CsvRow.id <$> createdRows newFileId newRowId records
  = newRowId <$> seq 0 (length records).
Proof.
  unfold createdRows. apply list_eq. intros i.
  rewrite !list_lookup_fmap, list_lookup_imap.
  destruct (records !! i) as [record|] eqn:Hi; cbn.
  - rewrite lookup_seq_lt by (by eapply lookup_lt_Some). done.
  - rewrite lookup_seq_ge; [done|]. by apply lookup_ge_None.
Qed.

Lemma createdRows_file (records : list (gmap string string)) (row : CsvRow.t) :
  row ∈ createdRows newFileId newRowId records -> CsvRow.csvFileId row = newFileId.
Proof.
  unfold createdRows. intros Hin.
  apply list_elem_of_lookup in Hin as [i Hi].
  rewrite list_lookup_imap in Hi.
  destruct (records !! i); [|done]. by injection Hi as <-.
Qed.

Lemma insert_rows_lookup (rows : list CsvRow.t) (table : gmap string CsvRow.t) (k : string) :
  k ∉ CsvRow.id <$> rows ->
  foldr (fun row t => <[CsvRow.id row := row]> t) table rows !! k = table !! k.
Proof.
  induction rows as [|r rows IH]; intros Hk; [done|]. cbn in *.
  apply not_elem_of_cons in Hk as [Hne Hk].
  rewrite lookup_insert_ne by done. by apply IH.
Qed.

Lemma insert_rows_to_list (rows : list CsvRow.t) (table : gmap string CsvRow.t) :
  NoDup (CsvRow.id <$> rows) ->
  (forall row, row ∈ rows -> table !! CsvRow.id row = None) ->
  map_to_list (foldr (fun row t => <[CsvRow.id row := row]> t) table rows)
  ≡ₚ ((fun row => (CsvRow.id row, row)) <$> rows) ++ map_to_list table.
Proof.
  induction rows as [|r rows IH]; intros Hnd Hfresh; [done|]. cbn in *.
  apply NoDup_cons in Hnd as [Hr Hnd].
  rewrite map_to_list_insert.
  - rewrite IH; [done..|]. intros row Hrow. apply Hfresh. by right.
  - rewrite insert_rows_lookup by done. apply Hfresh. by left.
Qed.

Lemma List_filter_all {A} (f : A -> bool) (l : list A) :
  (forall x, x ∈ l -> f x = true) -> List.filter f l = l.
Proof.
  induction l as [|x l IH]; intros H; [done|]. cbn.
  rewrite H by left. f_equal. apply IH. intros y Hy. apply H. by right.
Qed.

Lemma List_filter_none {A} (f : A -> bool) (l : list A) :
  (forall x, x ∈ l -> f x = false) -> List.filter f l = [].
Proof.
  induction l as [|x l IH]; intros H; [done|]. cbn.
  rewrite H by left. apply IH. intros y Hy. apply H. by right.
Qed.

(** X27: when the content parses to at least one record with a key and the
    database assigns a fresh file identifier and fresh, distinct row
    identifiers, [uploadCsvFile] returns a file of the caller whose
    headers are the keys of the first record and whose [rowCount] is the
    number of records.  Fetching that file returns it with one row per
    record, the record at position [i] as the data of the row with
    [rowIndex] [i], so [rowCount] is the number of rows fetched.  What
    was stored before stays, and the entities stay well formed. *)
Theorem uploadCsvFile_creates (fileName fileContent : string) (user : User)
  (db : Entities) (record : gmap string string)
  (records : list (gmap string string)) :
  wellFormed db ->
  CsvFile_table db !! newFileId = None ->
  (forall i, CsvRow_table db !! newRowId i = None) ->
  (forall i j, newRowId i = newRowId j -> i = j) ->
  parse fileContent = inl (record :: records) ->
  Object_keys record <> [] ->
  exists file db' rows,
    uploadCsvFile parse Object_keys newFileId newRowId
      fileName fileContent (Some user) db
    = (Js.Normal file, db')
    /\ file = {| CsvFile.id := newFileId;
                 CsvFile.userId := id user;
                 CsvFile.fileName := fileName;
                 CsvFile.originalName := fileName;
                 CsvFile.columnHeaders := Object_keys record;
                 CsvFile.rowCount := Z.of_nat (length (record :: records)) |}
    /\ wellFormed db'
    /\ getCsvFile newFileId (Some user) db' = Js.Normal (file, rows)
    /\ rows ≡ₚ createdRows newFileId newRowId (record :: records)
    /\ Z.of_nat (length rows) = CsvFile.rowCount file
    /\ (forall f, f <> newFileId ->
          CsvFile_table db' !! f = CsvFile_table db !! f)
    /\ (forall k row, CsvRow_table db !! k = Some row ->
          CsvRow_table db' !! k = Some row).
Proof.
  intros [Hfiles Hrows] Hfile Hfresh Hinj Hparse Hkeys.
  set (all := record :: records) in *.
  set (created := createdRows newFileId newRowId all).
  assert (Hids : NoDup (CsvRow.id <$> created)).
  { unfold created. rewrite createdRows_ids.
    apply NoDup_fmap_2; [exact Hinj | apply NoDup_seq]. }
  assert (Hnew : forall row, row ∈ created -> CsvRow_table db !! CsvRow.id row = None).
  { intros row Hin.
    assert (Hid : CsvRow.id row ∈ CsvRow.id <$> created)
      by (apply list_elem_of_fmap; eauto).
    unfold created in Hid. rewrite createdRows_ids in Hid.
    apply list_elem_of_fmap in Hid as (i & -> & _). apply Hfresh. }
  set (run := create_file newFileId newRowId (id user) fileName
                (Object_keys record) all db).
  assert (Htable : map_to_list (CsvRow_table run.2)
                   ≡ₚ ((fun row => (CsvRow.id row, row)) <$> created)
                      ++ map_to_list (CsvRow_table db))
    by (by apply insert_rows_to_list).
  assert (Hrowsof : rowsOfFile run.2 newFileId ≡ₚ created).
  { unfold rowsOfFile.
    etransitivity;
      [apply List_filter_Permutation, fmap_Permutation, Htable|].
    rewrite fmap_app, List.filter_app.
    rewrite <- list_fmap_compose.
    rewrite (List_filter_none _ (map_to_list (CsvRow_table db)).*2).
    - rewrite app_nil_r, List_filter_all.
      + clear. induction created as [|row rows IH]; [done|].
        cbn. by rewrite IH.
      + intros row Hin. apply list_elem_of_fmap in Hin as (row' & -> & Hin).
        cbn. apply String.eqb_eq. by apply (createdRows_file all).
    - intros row Hin. apply list_elem_of_fmap in Hin as ([k r] & -> & Hin).
      apply elem_of_map_to_list in Hin. cbn.
      apply String.eqb_neq. intros Heq.
      destruct (Hrows k r Hin) as [_ [f Hf]]. congruence. }
  assert (Hfiles' : CsvFile_table run.2 = <[newFileId := run.1]> (CsvFile_table db))
    by reflexivity.
  assert (Hrows' : CsvRow_table run.2
                   = foldr (fun row t => <[CsvRow.id row := row]> t)
                       (CsvRow_table db) created)
    by reflexivity.
  exists run.1, run.2, (rowsOfFile run.2 newFileId).
  split.
  { unfold uploadCsvFile. rewrite Hparse. unfold run, all.
    change (default ∅ (head (record :: records))) with record.
    cbn [length Nat.eqb].
    destruct (Object_keys record) as [|key keys]; [done|]. reflexivity. }
  split; [done|].
  split.
  { split.
    - intros k f Hf. rewrite Hfiles' in Hf.
      destruct (decide (newFileId = k)) as [<-|Hne].
      + rewrite lookup_insert_eq in Hf. by injection Hf as <-.
      + rewrite lookup_insert_ne in Hf by done. by apply Hfiles.
    - intros k r Hr. rewrite Hfiles'.
      destruct (decide (k ∈ CsvRow.id <$> created)) as [Hk|Hk].
      + assert (Hin : (k, r) ∈ map_to_list (CsvRow_table run.2))
          by (by apply elem_of_map_to_list).
        rewrite Htable in Hin. apply elem_of_app in Hin as [Hin|Hin].
        * apply list_elem_of_fmap in Hin as (row & [= -> ->] & Hin).
          split; [done|]. rewrite (createdRows_file all row Hin).
          rewrite lookup_insert_eq. eauto.
        * apply elem_of_map_to_list in Hin.
          apply list_elem_of_fmap in Hk as (row & -> & Hrow).
          rewrite (Hnew row Hrow) in Hin. done.
      + rewrite Hrows', insert_rows_lookup in Hr by done.
        destruct (Hrows k r Hr) as [Hid [f Hf]]. split; [done|].
        exists f. rewrite lookup_insert_ne; [done|]. congruence. }
  split.
  { unfold getCsvFile. rewrite Hfiles', lookup_insert_eq.
    change (CsvFile.userId run.1) with (id user). by rewrite Z.eqb_refl. }
  split; [exact Hrowsof|].
  split.
  { rewrite Hrowsof. unfold created, createdRows. by rewrite length_imap. }
  split.
  { intros f Hf. rewrite Hfiles'. by rewrite lookup_insert_ne. }
  intros k row Hk. rewrite Hrows', insert_rows_lookup; [done|].
  intros Hin. apply list_elem_of_fmap in Hin as (row' & -> & Hrow').
  rewrite (Hnew row' Hrow') in Hk. done.
Qed.

End UploadOperationProperties.

Lemma uploadCsvFile_rejects_witness :
  UploadOperation.uploadCsvFile UploadSample.parse UploadSample.Object_keys
    "f2" UploadSample.newRowId "empty.csv" "" (Some (Server.mkUser 7))
    Sample.entities
  = (Js.Throw "CSV file is empty", Sample.entities).
Proof.
  destruct (uploadCsvFile_rejects UploadSample.parse UploadSample.Object_keys
              "f2" UploadSample.newRowId "empty.csv" "" Sample.entities)
    as [_ Hrejects].
  destruct (Hrejects (Server.mkUser 7)) as (_ & _ & Hempty & _).
  apply Hempty. reflexivity.
Defined.

Lemma newRowId_inj (i : nat) : forall j,
  UploadSample.newRowId i = UploadSample.newRowId j -> i = j.
Proof.
  induction i as [|i IH]; intros [|j] H; cbn in H.
  - done.
  - destruct j; discriminate.
  - destruct i; discriminate.
  - f_equal. apply IH. by injection H.
Qed.

Lemma newRowId_fresh (i : nat) :
  Server.CsvRow_table Sample.entities !! UploadSample.newRowId i = None.
Proof.
  apply not_elem_of_list_to_map_1. cbn. intros Hin.
  apply elem_of_cons in Hin as [Hin|Hin];
    [|apply list_elem_of_singleton in Hin]; destruct i; discriminate.
Qed.

Lemma uploadCsvFile_creates_witness :
  exists file db' rows,
    UploadOperation.uploadCsvFile UploadSample.parse UploadSample.Object_keys
      "f2" UploadSample.newRowId "more.csv" "name,age" (Some (Server.mkUser 7))
      Sample.entities
    = (Js.Normal file, db')
    /\ CsvFile.rowCount file = 2
    /\ CsvFile.columnHeaders file = ["name"; "age"]
    /\ Operations.getCsvFile "f2" (Some (Server.mkUser 7)) db'
       = Js.Normal (file, rows)
    /\ length rows = 2%nat.
Proof.
  destruct (uploadCsvFile_creates UploadSample.parse UploadSample.Object_keys
              "f2" UploadSample.newRowId "more.csv" "name,age"
              (Server.mkUser 7) Sample.entities
              (<["name" := "Cy"]> (<["age" := "41"]> ∅))
              [<["name" := "Di"]> (<["age" := "52"]> ∅)]
              wellFormed_sample eq_refl newRowId_fresh newRowId_inj eq_refl)
    as (file & db' & rows & Hrun & Hfile & _ & Hget & Hrows & _);
    [by vm_compute|].
  exists file, db', rows. split; [exact Hrun|].
  rewrite Hfile. split; [done|]. split; [by vm_compute|].
  split; [by rewrite <- Hfile|]. by rewrite Hrows.
Defined.

(** * The invariant of the columns *)

Lemma NoDup_List_filter {A} (f : A -> bool) (l : list A) :
  NoDup l -> NoDup (List.filter f l).
Proof.
  induction 1 as [|x l Hx Hl IH]; cbn; [constructor|].
  destruct (f x); [|done]. constructor; [|done].
  rewrite elem_of_List_filter. tauto.
Qed.

(** X28: the viewer keeps its columns in order.  For a file with distinct
    headers the initial state has every header visible once and the
    declared column order; toggling a header and moving a column between
    valid positions keep the visible columns distinct headers and the
    column order an arrangement of the headers, so the table never
    renders more columns than the file has. *)
Theorem columnsInvariant_kept (columnHeaders : list string) :
  NoDup columnHeaders ->
  columnsInvariant columnHeaders (initialState columnHeaders)
  /\ (forall st,
        columnsInvariant columnHeaders st ->
        (forall column,
           column ∈ columnHeaders ->
           columnsInvariant columnHeaders (handleColumnToggle column st))
        /\ (forall dragIndex dropIndex,
              0 <= dragIndex < Z.of_nat (length columnHeaders) ->
              0 <= dropIndex < Z.of_nat (length columnHeaders) ->
              exists st',
                handleColumnReorder dragIndex dropIndex st = Js.Normal st'
                /\ columnsInvariant columnHeaders st')
        /\ (length (renderedColumns st) <= length columnHeaders)%nat).
Proof.
  intros Hnd. split; [by split|].
  intros st (Hvis & Hsub & Hord). split; [|split].
  - intros column Hcol. unfold columnsInvariant, handleColumnToggle.
    cbn [visibleColumns columnOrder setVisibleColumns].
    destruct (Array_includes (visibleColumns st) column) eqn:Hin.
    + split; [by apply NoDup_List_filter|]. split; [|done].
      intros c Hc. apply elem_of_List_filter in Hc as [Hc _]. by apply Hsub.
    + apply bool_decide_eq_false in Hin. split; [|split; [|done]].
      * apply NoDup_app. split; [done|]. split; [|apply NoDup_singleton].
        intros c Hc Hc'. apply list_elem_of_singleton in Hc' as ->. done.
      * intros c Hc. apply elem_of_app in Hc as [Hc|Hc]; [by apply Hsub|].
        by apply list_elem_of_singleton in Hc as ->.
  - intros dragIndex dropIndex Hdrag Hdrop.
    assert (Hlen : length (columnOrder st) = length columnHeaders)
      by (by rewrite Hord, length_fmap).
    eexists. split; [done|]. unfold columnsInvariant.
    cbn [visibleColumns columnOrder setColumnOrder].
    split; [done|]. split; [done|].
    rewrite <- Hord. apply reorder_spec; lia.
  - rewrite <- (length_fmap Some columnHeaders), <- Hord.
    unfold renderedColumns. apply List.filter_length_le.
Qed.

Lemma columnsInvariant_kept_witness :
  columnsInvariant Sample.headers
    (handleColumnToggle "age" (initialState Sample.headers)).
Proof.
  assert (Hnd : NoDup Sample.headers).
  { apply (bool_decide_eq_true_1 (NoDup Sample.headers)). by vm_compute. }
  destruct (columnsInvariant_kept Sample.headers Hnd) as [Hinit Hkept].
  apply (Hkept (initialState Sample.headers) Hinit). right. left.
Defined.
